(** * A Ben-Or consensus node (src/nodes/node.ts)

    The node is a closure over its configuration ([nodeId], [N], [F],
    [initialValue], [isFaulty]) and four mutable variables: [state],
    [messages], [consensusRunning] and [stepTimeout].  The HTTP routes and
    the timer callback are the only entry points; each runs to completion
    on the single-threaded event loop, except [benOrStep], which is an
    [async] function and gives the loop back at every [await].

    The embedding keeps that structure: the closure is a record [Node],
    every route is a function on it, and [benOrStep] is cut at its four
    [await]s into an entry segment and four continuations that the event
    loop resumes later.  [Math.random] is an input of the segment that
    draws from it. *)

From stdpp Require Import gmap list strings.
From Stdlib Require Import ZArith Lia.

Local Open Scope Z_scope.

(** ** Data *)

(** [Value = 0 | 1 | "?"] *)
Inductive Value := V0 | V1 | VUnknown.

#[global] Instance Value_eq_dec : EqDecision Value.
Proof. solve_decision. Defined.

(** [type MessageType = "R" | "P"] *)
Inductive MessageType := R | P.

#[global] Instance MessageType_eq_dec : EqDecision MessageType.
Proof. solve_decision. Defined.

(** [interface Message].  The field [v] is typed [Value] in the source, but
    the node fills it with [state.x!], and [!] only silences the type
    checker: what travels is whatever [state.x] holds, [null] included. *)
Module Message.
Record t := mk
  { type : MessageType;
    nodeId : Z;
    k : Z;
    v : option Value }.
End Message.

(** [NodeState]: [x], [decided] and [k] are nullable. *)
Module NodeState.
Record t := mk
  { killed : bool;
    x : option Value;
    decided : option bool;
    k : option Z }.
End NodeState.

(** The parameters of [node(...)] that the consensus code reads. *)
Module Config.
Record t := mk
  { nodeId : Z;
    N : Z;
    F : Z;
    initialValue : Value;
    isFaulty : bool }.
End Config.

(** One entry of [messages]: [{ r: Message[]; p: Message[] }]. *)
Record Bucket := mkBucket
  { r : list Message.t;
    p : list Message.t }.

(** The suspended rest of a [benOrStep] call, named after the [await] it
    is parked on.  [valueToPropose] is the only local that is live across
    an [await]. *)
Inductive Cont :=
| AwaitSendR
| AwaitWindowR
| AwaitSendP (valueToPropose : Value)
| AwaitWindowP.

(** The [console.log] calls of the closure. *)
Inductive LogEntry :=
| LogForcingStep (k : option Z) (decided : option bool)
| LogStarting (k : Z)
| LogCompleted (k : option Z)
| LogForcingStart (k : option Z) (decided : option bool)
| LogGetState (decided : bool) (k : Z).

(** What a route answers: [res.status(c).send(body)] or [res.json(obj)]. *)
Inductive Response :=
| Send (status : Z) (body : string)
| Json (st : NodeState.t).

(** The closure.  [timers] is the event loop's table of armed [setTimeout]
    handles for [benOrStep] (handle to delay), [stepTimeout] the variable
    that remembers the last handle; [running] holds the suspended
    [benOrStep] calls; [sent] is what [fetch] was asked to post, with the
    index of the peer. *)
Record Node := mkNode
  { state : NodeState.t;
    messages : gmap Z Bucket;
    consensusRunning : bool;
    stepTimeout : option nat;
    timers : gmap nat Z;
    nextTimer : nat;
    running : list Cont;
    sent : list (Z * Message.t);
    log : list LogEntry }.

Definition set_state (st : NodeState.t) (nd : Node) : Node :=
  mkNode st (messages nd) (consensusRunning nd) (stepTimeout nd) (timers nd)
         (nextTimer nd) (running nd) (sent nd) (log nd).

Definition set_messages (ms : gmap Z Bucket) (nd : Node) : Node :=
  mkNode (state nd) ms (consensusRunning nd) (stepTimeout nd) (timers nd)
         (nextTimer nd) (running nd) (sent nd) (log nd).

Definition set_consensusRunning (b : bool) (nd : Node) : Node :=
  mkNode (state nd) (messages nd) b (stepTimeout nd) (timers nd)
         (nextTimer nd) (running nd) (sent nd) (log nd).

Definition set_timers (ts : gmap nat Z) (nd : Node) : Node :=
  mkNode (state nd) (messages nd) (consensusRunning nd) (stepTimeout nd) ts
         (nextTimer nd) (running nd) (sent nd) (log nd).

Definition set_running (cs : list Cont) (nd : Node) : Node :=
  mkNode (state nd) (messages nd) (consensusRunning nd) (stepTimeout nd)
         (timers nd) (nextTimer nd) cs (sent nd) (log nd).

Definition suspend (c : Cont) (nd : Node) : Node :=
  set_running (running nd ++ [c]) nd.

Definition console_log (e : LogEntry) (nd : Node) : Node :=
  mkNode (state nd) (messages nd) (consensusRunning nd) (stepTimeout nd)
         (timers nd) (nextTimer nd) (running nd) (sent nd) (log nd ++ [e]).

Definition set_x (xv : option Value) (st : NodeState.t) : NodeState.t :=
  NodeState.mk (NodeState.killed st) xv (NodeState.decided st) (NodeState.k st).

Definition set_decided (d : option bool) (st : NodeState.t) : NodeState.t :=
  NodeState.mk (NodeState.killed st) (NodeState.x st) d (NodeState.k st).

Definition set_k (kv : option Z) (st : NodeState.t) : NodeState.t :=
  NodeState.mk (NodeState.killed st) (NodeState.x st) (NodeState.decided st) kv.

Definition set_killed (b : bool) (st : NodeState.t) : NodeState.t :=
  NodeState.mk b (NodeState.x st) (NodeState.decided st) (NodeState.k st).

(** ** JavaScript arithmetic on the integers

    [N] and [F] are node counts, so [a > N/2] with the real quotient is
    [N < 2a], and [a <= N/2] is [2a <= N]. *)

Definition gt_half (a n : Z) : bool := n <? 2 * a.
Definition le_half (a n : Z) : bool := 2 * a <=? n.

(** [!state.k]: [null] and [0] are falsy. *)
Definition falsy (kv : option Z) : bool :=
  match kv with
| None => true
| Some z => z =? 0
  end.

(** [!state.k || state.k <= 10] *)
Definition at_most_10 (kv : option Z) : bool :=
  falsy kv || match kv with Some z => z <=? 10 | None => true end.

(** [list.filter(msg => msg.v === val).length] *)
Definition count (val : Value) (l : list Message.t) : Z :=
  Z.of_nat (length (filter (λ msg, Message.v msg = Some val) l)).

(** [Math.random() < 0.5 ? 0 : 1], the draw given as [coin]. *)
Definition random_bit (coin : bool) : Value := if coin then V0 else V1.

(** ** The closure's functions *)

Section Closure.
Context (cfg : Config.t).

Local Abbreviation nodeId := (Config.nodeId cfg).
Local Abbreviation N := (Config.N cfg).
Local Abbreviation F := (Config.F cfg).
Local Abbreviation initialValue := (Config.initialValue cfg).
Local Abbreviation isFaulty := (Config.isFaulty cfg).

(** The closure right after [node(...)] has built it (lines 30-40). *)
Definition init : Node :=
  {| state :=
       {| NodeState.killed := false;
          NodeState.x := if isFaulty then None else Some initialValue;
          NodeState.decided :=
            if isFaulty then None
            else Some (if gt_half F N then false else false);
          NodeState.k :=
            if isFaulty then None
            else Some (if gt_half F N then 15 else 0) |};
     messages := ∅;
     consensusRunning := false;
     stepTimeout := None;
     timers := ∅;
     nextTimer := 0%nat;
     running := [];
     sent := [];
     log := [] |}.

(** The peers the [for] loop of [broadcastMessage] posts to:
    [0 <= i < N], [i !== nodeId]. *)
Definition peers : list Z :=
  filter (λ i, i ≠ nodeId) (seqZ 0 N).

(** [broadcastMessage].  The flag [killed] is read once, on entry; a failed
    [fetch] is caught and ignored, so the loop reaches every peer.  The
    posts are recorded in [sent] when the call is made; the loop awaits each
    [fetch], so they leave over the following turns of the event loop, and
    the caller resumes after the last one. *)
Definition broadcastMessage (message : Message.t) (nd : Node) : Node :=
  if NodeState.killed (state nd) || isFaulty then nd
  else
    mkNode (state nd) (messages nd) (consensusRunning nd) (stepTimeout nd)
           (timers nd) (nextTimer nd) (running nd)
           (sent nd ++ map (λ i, (i, message)) peers) (log nd).

(** [stepTimeout = setTimeout(benOrStep, delay)] *)
Definition setTimeout (delay : Z) (nd : Node) : Node :=
  mkNode (state nd) (messages nd) (consensusRunning nd)
         (Some (nextTimer nd)) (<[nextTimer nd := delay]> (timers nd))
         (S (nextTimer nd)) (running nd) (sent nd) (log nd).

(** [if (!messages[key]) messages[key] = { r: [], p: [] }] *)
Definition ensure_bucket (key : Z) (ms : gmap Z Bucket) : gmap Z Bucket :=
  match ms !! key with
  | Some _ => ms
  | None => <[key := mkBucket [] []]> ms
  end.

(** [benOrStep] from its first line to the first [await] (lines 64-101). *)
Definition benOrStep (nd : Node) : Node :=
  let st := state nd in
  if NodeState.killed st || isFaulty then nd
  else if gt_half F N && negb isFaulty then
    let st1 := set_decided (Some false) st in
    let st2 := if at_most_10 (NodeState.k st1)
               then set_k (Some 15) st1 else st1 in
    let nd1 := console_log
                 (LogForcingStep (NodeState.k st2) (NodeState.decided st2))
                 (set_state st2 nd) in
    if consensusRunning nd1 && negb (NodeState.killed st2)
    then setTimeout 100 nd1
    else nd1
  else if bool_decide (NodeState.decided st = Some true) && le_half F N
  then nd
  else
    let k0 := if falsy (NodeState.k st)
              then 0 else default 0 (NodeState.k st) in
    let st1 := set_k (Some k0) st in
    let nd1 := set_messages (ensure_bucket k0 (messages nd))
                            (set_state st1 nd) in
    let nd2 := console_log (LogStarting k0) nd1 in
    let nd3 := broadcastMessage
                 (Message.mk R nodeId k0 (NodeState.x st1)) nd2 in
    suspend AwaitSendR nd3.

(** [messages[state.k]]: reading a property of [undefined] throws, which
    ends the [async] call there. *)
Definition current_bucket (nd : Node) : option (Z * Bucket) :=
  match NodeState.k (state nd) with
  | Some k0 =>
      match messages nd !! k0 with
      | Some b => Some (k0, b)
      | None => None
      end
  | None => None
  end.

(** Lines 104-112: the node's own R message joins the bucket. *)
Definition after_send_R (nd : Node) : Node :=
  match current_bucket nd with
  | Some (k0, b) =>
      let own := Message.mk R nodeId k0 (NodeState.x (state nd)) in
      suspend AwaitWindowR
        (set_messages (<[k0 := mkBucket (r b ++ [own]) (p b)]> (messages nd))
                      nd)
  | None => nd
  end.

(** Lines 115-128: the value to propose. *)
Definition valueToPropose (count0 count1 : Z) (coin : bool) : Value :=
  if gt_half count0 N then V0
  else if gt_half count1 N then V1
  else random_bit coin.

(** Lines 114-136. *)
Definition after_window_R (coin : bool) (nd : Node) : Node :=
  match current_bucket nd with
  | Some (k0, b) =>
      let count0 := count V0 (r b) in
      let count1 := count V1 (r b) in
      let vp := valueToPropose count0 count1 coin in
      suspend (AwaitSendP vp)
        (broadcastMessage (Message.mk P nodeId k0 (Some vp)) nd)
  | None => nd
  end.

(** Lines 138-147. *)
Definition after_send_P (vp : Value) (nd : Node) : Node :=
  match current_bucket nd with
  | Some (k0, b) =>
      let own := Message.mk P nodeId k0 (Some vp) in
      suspend AwaitWindowP
        (set_messages (<[k0 := mkBucket (r b) (p b ++ [own])]> (messages nd))
                      nd)
  | None => nd
  end.

(** Lines 160-192: what the P messages do to [state]. *)
Definition resolve (count0P count1P : Z) (coin : bool)
           (st : NodeState.t) : NodeState.t :=
  let threshold := N - F in
  if le_half F N then
    if threshold <=? count0P then
      set_decided (Some true) (set_x (Some V0) st)
    else if threshold <=? count1P then
      set_decided (Some true) (set_x (Some V1) st)
    else if F + 1 <=? count0P then set_x (Some V0) st
    else if F + 1 <=? count1P then set_x (Some V1) st
    else set_x (Some (random_bit coin)) st
  else
    set_decided (Some false)
      (if F + 1 <=? count0P then set_x (Some V0) st
       else if F + 1 <=? count1P then set_x (Some V1) st
       else set_x (Some (random_bit coin)) st).

(** Lines 194-197. *)
Definition next_round (st : NodeState.t) : NodeState.t :=
  if negb (gt_half F N && negb (falsy (NodeState.k st))
           && match NodeState.k st with Some z => 10 <? z | None => false end)
  then set_k (Some (default 0 (NodeState.k st) + 1)) st
  else st.

(** Lines 201-208: delete every key [k < state.k - 1]. *)
Definition prune (cur : Z) (ms : gmap Z Bucket) : gmap Z Bucket :=
  filter (λ kb, ¬ (kb.1 < cur - 1)) ms.

(** Lines 149-215. *)
Definition after_window_P (coin : bool) (nd : Node) : Node :=
  match current_bucket nd with
  | Some (k0, b) =>
      let count0P := count V0 (p b) in
      let count1P := count V1 (p b) in
      if N =? 1 then set_state (set_decided (Some true) (state nd)) nd
      else
        let st1 := next_round (resolve count0P count1P coin (state nd)) in
        let nd1 := console_log (LogCompleted (NodeState.k st1))
                               (set_state st1 nd) in
        let nd2 := set_messages
                     (prune (default 0 (NodeState.k st1)) (messages nd1))
                     nd1 in
        if consensusRunning nd2 && negb (NodeState.killed st1)
        then setTimeout (if gt_half F N then 10 else 100) nd2
        else nd2
  | None => nd
  end.

(** The event loop resumes a suspended call. *)
Definition resume (c : Cont) (coin : bool) (nd : Node) : Node :=
  match c with
  | AwaitSendR => after_send_R nd
  | AwaitWindowR => after_window_R coin nd
  | AwaitSendP vp => after_send_P vp nd
  | AwaitWindowP => after_window_P coin nd
  end.

(** [GET /status] *)
Definition status : Response :=
  if isFaulty then Send 500 "faulty" else Send 200 "live".

(** [POST /message] *)
Definition message (m : Message.t) (nd : Node) : Node * Response :=
  if NodeState.killed (state nd) || isFaulty
  then (nd, Send 500 "Node is faulty or killed")
  else
    let ms := ensure_bucket (Message.k m) (messages nd) in
    let ms' :=
      match ms !! Message.k m with
      | Some b =>
          match Message.type m with
          | R => <[Message.k m := mkBucket (r b ++ [m]) (p b)]> ms
          | P => <[Message.k m := mkBucket (r b) (p b ++ [m])]> ms
          end
      | None => ms
      end in
    (set_messages ms' nd, Send 200 "Message received").

(** [GET /start]; [ready] is what [nodesAreReady()] answers. *)
Definition start (ready : bool) (nd : Node) : Node * Response :=
  if NodeState.killed (state nd) || isFaulty
  then (nd, Send 500 "Node is faulty or killed")
  else if negb (consensusRunning nd) then
    let nd1 := set_consensusRunning true nd in
    let nd2 :=
      if gt_half F N && negb isFaulty then
        let st1 := set_decided (Some false) (set_k (Some 15) (state nd1)) in
        console_log
          (LogForcingStart (NodeState.k st1) (NodeState.decided st1))
          (set_state st1 nd1)
      else nd1 in
    (if ready then benOrStep nd2 else nd2, Send 200 "Consensus started")
  else (nd, Send 200 "Consensus started").

(** [GET /stop]; [clearTimeout] disarms the handle it is given. *)
Definition stop (nd : Node) : Node * Response :=
  let nd1 := set_consensusRunning false
               (set_state (set_killed true (state nd)) nd) in
  let nd2 :=
    match stepTimeout nd1 with
    | Some h =>
        mkNode (state nd1) (messages nd1) (consensusRunning nd1) None
               (delete h (timers nd1)) (nextTimer nd1) (running nd1)
               (sent nd1) (log nd1)
    | None => nd1
    end in
  (nd2, Send 200 "Node stopped").

(** [GET /getState] *)
Definition getState (nd : Node) : Node * Response :=
  if gt_half F N && negb isFaulty then
    let st1 := set_decided (Some false) (state nd) in
    let st2 := if at_most_10 (NodeState.k st1)
               then set_k (Some 15) st1 else st1 in
    let response :=
      {| NodeState.killed := NodeState.killed st2;
         NodeState.x := Some (default V0 (NodeState.x st2));
         NodeState.decided := Some false;
         NodeState.k := Some 15 |} in
    (console_log (LogGetState false 15) (set_state st2 nd), Json response)
  else (nd, Json (state nd)).

(** ** The event loop *)

Inductive Event :=
| GetStatus
| PostMessage (m : Message.t)
| GetStart (ready : bool)
| GetStop
| GetGetState
| TimerFires (h : nat)
| Resumes (i : nat) (coin : bool).

(** One turn of the loop.  A timer that is not armed does not fire and a
    call that is not suspended does not resume: such events change
    nothing. *)
Definition handle (nd : Node) (e : Event) : Node * option Response :=
  match e with
  | GetStatus => (nd, Some status)
  | PostMessage m => let (nd', rs) := message m nd in (nd', Some rs)
  | GetStart ready => let (nd', rs) := start ready nd in (nd', Some rs)
  | GetStop => let (nd', rs) := stop nd in (nd', Some rs)
  | GetGetState => let (nd', rs) := getState nd in (nd', Some rs)
  | TimerFires h =>
      match timers nd !! h with
      | Some _ => (benOrStep (set_timers (delete h (timers nd)) nd), None)
      | None => (nd, None)
      end
  | Resumes i coin =>
      match running nd !! i with
      | Some c => (resume c coin (set_running (delete i (running nd)) nd), None)
      | None => (nd, None)
      end
  end.

Definition step (nd : Node) (e : Event) : Node := (handle nd e).1.

Definition run (nd : Node) (evs : list Event) : Node := foldl step nd evs.

(** The states the closure can be in. *)
Definition reachable (nd : Node) : Prop := ∃ evs, nd = run init evs.

End Closure.

(** ** What the specification says, in its own words *)

(** The count of a value among the messages of a phase, as the
    specification uses it: one for each message that carries the value. *)
Fixpoint occurrences (val : Value) (buffer : list Message.t) : Z :=
  match buffer with
  | [] => 0
  | msg :: rest =>
      (if decide (Message.v msg = Some val) then 1 else 0)
      + occurrences val rest
  end.

(** [proposeFromR(buffer, N)]: with [c0], [c1] the counts of 0 and 1 among
    the R messages, 0 if [c0 > N/2], 1 if [c1 > N/2], otherwise the bit of
    the random source.  On integers [c > N/2] is [N < 2c]. *)
Definition proposeFromR_spec (buffer : Bucket) (n : Z) (bit : Value) : Value :=
  let c0 := occurrences V0 (r buffer) in
  let c1 := occurrences V1 (r buffer) in
  if bool_decide (n < 2 * c0) then V0
  else if bool_decide (n < 2 * c1) then V1
  else bit.

(** [resolveFromP(buffer, N, F)] on the branch [F <= N/2], with
    [threshold = N - F] and [c0], [c1] the counts of 0 and 1 among the P
    messages. *)
Definition resolveFromP_spec (buffer : Bucket) (n f : Z) (bit : Value)
  : Value * bool :=
  let threshold := n - f in
  let c0 := occurrences V0 (p buffer) in
  let c1 := occurrences V1 (p buffer) in
  if bool_decide (threshold ≤ c0) then (V0, true)
  else if bool_decide (threshold ≤ c1) then (V1, true)
  else if bool_decide (f + 1 ≤ c0) then (V0, false)
  else if bool_decide (f + 1 ≤ c1) then (V1, false)
  else (bit, false).

(** The round a snapshot reports. *)
Definition snapshot_k (rs : Response) : option Z :=
  match rs with
  | Json st => NodeState.k st
  | Send _ _ => None
  end.

Definition snapshot_decided (rs : Response) : option bool :=
  match rs with
  | Json st => NodeState.decided st
  | Send _ _ => None
  end.

(** The log lines that only a [benOrStep] call that got past its
    [killed] test writes. *)
Definition is_step_entry (e : LogEntry) : bool :=
  match e with
  | LogStarting _ | LogForcingStep _ _ => true
  | _ => false
  end.

Definition step_entries (l : list LogEntry) : list LogEntry :=
  List.filter is_step_entry l.

(** Requests that do not drive the consensus: peers posting messages and
    observers reading the status or the state. *)
Definition observer (e : Event) : Prop :=
  match e with
  | PostMessage _ | GetGetState | GetStatus => True
  | _ => False
  end.

(** Only the current round and the one before it have a bucket. *)
Definition only_current_and_previous (nd : Node) : Prop :=
  ∀ j, is_Some (messages nd !! j) →
       NodeState.k (state nd) = Some j ∨ NodeState.k (state nd) = Some (j + 1).

(** The first [benOrStep] call of a fault-respecting node, parked on the
    [await] of [c]: nothing decided yet, round 0, bucket 0 in place. *)
Definition in_first_step (cfg : Config.t) (c : Cont) (nd : Node) : Prop :=
  state nd =
    NodeState.mk false (Some (Config.initialValue cfg)) (Some false) (Some 0) ∧
  running nd = [c] ∧
  is_Some (messages nd !! 0).

(** ** Concrete networks *)

(** Node 0 of three, one of them faulty, starting from 1. *)
Definition three_one : Config.t := Config.mk 0 3 1 V1 false.

(** Node 0 of three with [F = 2], above [N/2]. *)
Definition three_two : Config.t := Config.mk 0 3 2 V1 false.

(** A single node with [F = 0], starting from ["?"]. *)
Definition alone_unknown : Config.t := Config.mk 0 1 0 VUnknown false.

(** A single non-faulty node configured with [F = 1]. *)
Definition alone_one : Config.t := Config.mk 0 1 1 V1 false.

(** The faulty node 2 of three. *)
Definition three_faulty : Config.t := Config.mk 2 3 1 V0 true.

Definition from_peer (t : MessageType) (sender round : Z) (val : Value)
  : Message.t :=
  Message.mk t sender round (Some val).

(** Node 0 of [three_one] in round 0: started, both peers' R messages in,
    parked on the R window. *)
Definition at_window_R : Node :=
  run three_one (init three_one)
      [GetStart true; PostMessage (from_peer R 1 0 V1); Resumes 0 true;
       PostMessage (from_peer R 2 0 V0)].

(** The same node after it proposed, with peer 1's P message and a
    message that peer 1 already sent for round 2, parked on the P window. *)
Definition at_window_P : Node :=
  run three_one at_window_R
      [Resumes 0 true; PostMessage (from_peer P 1 0 V1); Resumes 0 true;
       PostMessage (from_peer R 1 2 V1)].

(** Node 0 of [three_two] after [/start] and three timer-driven steps. *)
Definition above_half_running : Node :=
  run three_two (init three_two)
      [GetStart true; TimerFires 0; PostMessage (from_peer R 1 0 V1);
       TimerFires 1; TimerFires 2].

(** The single node of [alone_unknown] after its first step. *)
Definition alone_decided : Node :=
  run alone_unknown (init alone_unknown)
      [GetStart true; Resumes 0 true; Resumes 0 true; Resumes 0 true;
       Resumes 0 true].

(** The faulty node after a peer posted to it and it was asked to start. *)
Definition faulty_poked : Node :=
  run three_faulty (init three_faulty)
      [PostMessage (from_peer R 0 0 V1); GetStart true; GetGetState].

(** ** Predicates for the properties of the whole closure *)

(** [messages[j]], or an empty bucket where the store has none. *)
Definition bucket_of (nd : Node) (j : Z) : Bucket :=
  default (mkBucket [] []) (messages nd !! j).

(** What a post of this node looks like: it goes to another node of the
    network, names this node as the sender, carries a round that is not
    negative and, for an R message, the initial value or a bit, for a P
    message a bit. *)
Definition own_post (cfg : Config.t) (dm : Z * Message.t) : Prop :=
  0 ≤ dm.1 < Config.N cfg ∧ dm.1 ≠ Config.nodeId cfg ∧
  Message.nodeId dm.2 = Config.nodeId cfg ∧
  0 ≤ Message.k dm.2 ∧
  match Message.type dm.2 with
  | R => Message.v dm.2 = Some (Config.initialValue cfg) ∨
         Message.v dm.2 = Some V0 ∨ Message.v dm.2 = Some V1
  | P => Message.v dm.2 = Some V0 ∨ Message.v dm.2 = Some V1
  end.

(** What the bucket of the current round holds of the node's own messages
    while a [benOrStep] call is parked on [c]. *)
Definition self_delivered (cfg : Config.t) (c : Cont) (nd : Node) : Prop :=
  ∃ k0 b,
    current_bucket nd = Some (k0, b) ∧
    let own_R := Message.mk R (Config.nodeId cfg) k0 (NodeState.x (state nd)) in
    match c with
    | AwaitSendR => True
    | AwaitWindowR => own_R ∈ r b
    | AwaitSendP vp => own_R ∈ r b ∧ (vp = V0 ∨ vp = V1)
    | AwaitWindowP =>
        own_R ∈ r b ∧
        ∃ vp, (vp = V0 ∨ vp = V1) ∧
              Message.mk P (Config.nodeId cfg) k0 (Some vp) ∈ p b
    end.

(** Facts about rounds, values, timers and posts that every event keeps. *)
Record Inv2 (cfg : Config.t) (nd : Node) : Prop := mkInv2
  { inv_round :
      Config.isFaulty cfg = false →
      ∃ k0, NodeState.k (state nd) = Some k0 ∧ 0 ≤ k0;
    inv_delay :
      ∀ h d, timers nd !! h = Some d → d = 100;
    inv_value :
      Config.isFaulty cfg = false →
      NodeState.x (state nd) = Some (Config.initialValue cfg) ∨
      NodeState.x (state nd) = Some V0 ∨ NodeState.x (state nd) = Some V1;
    inv_round0 :
      Config.isFaulty cfg = false →
      gt_half (Config.F cfg) (Config.N cfg) = false →
      (NodeState.k (state nd) = Some 0 ∧
       NodeState.x (state nd) = Some (Config.initialValue cfg)) ∨
      NodeState.x (state nd) = Some V0 ∨ NodeState.x (state nd) = Some V1;
    inv_sent : Forall (own_post cfg) (sent nd);
    inv_quiet :
      Config.isFaulty cfg = false →
      gt_half (Config.F cfg) (Config.N cfg) = true → sent nd = [];
    inv_self : ∀ c, running nd = [c] → self_delivered cfg c nd }.

(** A closure on which no [benOrStep] call ever got past its guards and
    none can any more: nothing parked, nothing armed, nothing posted, the
    consensus fields as [node(...)] set them, and [/start] either rejected
    or already consumed. *)
Record never_ran (cfg : Config.t) (nd : Node) : Prop := mkNeverRan
  { nr_running : running nd = [];
    nr_timers : timers nd = ∅;
    nr_log : step_entries (log nd) = [];
    nr_sent : sent nd = [];
    nr_x : NodeState.x (state nd) = NodeState.x (state (init cfg));
    nr_decided :
      NodeState.decided (state nd) = NodeState.decided (state (init cfg));
    nr_k : NodeState.k (state nd) = NodeState.k (state (init cfg));
    nr_start :
      Config.isFaulty cfg = true ∨ consensusRunning nd = true ∨
      NodeState.killed (state nd) = true }.

(** Node 0 of [three_one] in round 0, parked on the posts of its R
    message. *)
Definition at_send_R : Node :=
  run three_one (init three_one) [GetStart true].

(** Node 0 of [three_one] after it decided 1 in round 0. *)
Definition three_decided : Node :=
  run three_one at_window_P [Resumes 0 true].

(** Node 0 of [three_one] in round 0 with no peer heard: parked on the R
    window with its own R message only. *)
Definition alone_at_window_R : Node :=
  run three_one (init three_one) [GetStart true; Resumes 0 true].

(** The same node after it proposed on a draw below 0.5, so 0, parked on
    the P window with its own P message only. *)
Definition alone_at_window_P : Node :=
  run three_one alone_at_window_R [Resumes 0 true; Resumes 0 true].

(** Node 0 of four, one of them faulty, starting from 1. *)
Definition four_one : Config.t := Config.mk 0 4 1 V1 false.

(** Node 0 of [four_one] in round 0, parked on the P window: it heard 1
    from two peers, proposed 1, and holds its own P message and that of
    peer 1. *)
Definition four_at_window_P : Node :=
  run four_one (init four_one)
      [GetStart true; PostMessage (from_peer R 1 0 V1);
       PostMessage (from_peer R 2 0 V1); Resumes 0 true; Resumes 0 true;
       Resumes 0 true; PostMessage (from_peer P 1 0 V1)].

(** Every event but the resumption of a suspended call: requests of any
    kind, [/stop] included, and timers. *)
Definition not_resumption (e : Event) : Prop :=
  match e with
  | Resumes _ _ => False
  | _ => True
  end.

(** ** The invariant of the closure *)

Section Invariant.
Context (cfg : Config.t).

Local Abbreviation nodeId := (Config.nodeId cfg).
Local Abbreviation N := (Config.N cfg).
Local Abbreviation F := (Config.F cfg).
Local Abbreviation initialValue := (Config.initialValue cfg).
Local Abbreviation isFaulty := (Config.isFaulty cfg).

Record Inv (nd : Node) : Prop := mkInv
  { inv_faulty :
      isFaulty = true →
      NodeState.x (state nd) = None ∧ NodeState.decided (state nd) = None ∧
      NodeState.k (state nd) = None ∧ running nd = [] ∧ sent nd = [] ∧
      timers nd = ∅;
    inv_forced :
      isFaulty = false → gt_half F N = true →
      NodeState.x (state nd) = Some initialValue ∧
      NodeState.decided (state nd) = Some false ∧
      NodeState.k (state nd) = Some 15 ∧ running nd = [];
    inv_timers :
      ∀ h, is_Some (timers nd !! h) → stepTimeout nd = Some h;
    inv_running :
      running nd = [] ∨
      ((∃ c, running nd = [c]) ∧ timers nd = ∅ ∧
       NodeState.decided (state nd) = Some false ∧
       is_Some (current_bucket nd));
    inv_idle :
      consensusRunning nd = false →
      timers nd = ∅ ∧ (NodeState.killed (state nd) = false → running nd = []);
    inv_killed :
      NodeState.killed (state nd) = true → consensusRunning nd = false;
    inv_decided :
      NodeState.decided (state nd) = Some true →
      NodeState.x (state nd) = Some V0 ∨ NodeState.x (state nd) = Some V1 ∨
      (N = 1 ∧ NodeState.x (state nd) = Some initialValue);
    inv_single :
      N = 1 → isFaulty = false →
      NodeState.x (state nd) = Some initialValue ∧
      (gt_half F N = false → NodeState.k (state nd) = Some 0);
    inv_live :
      isFaulty = false →
      is_Some (NodeState.x (state nd)) ∧
      is_Some (NodeState.decided (state nd)) ∧
      is_Some (NodeState.k (state nd)) }.

Lemma init_inv : Inv (init cfg).
Proof.
  split; simpl.
  - intros ->. done.
  - intros -> ->. done.
  - intros h [? Hh]. by rewrite lookup_empty in Hh.
  - by left.
  - done.
  - done.
  - by destruct isFaulty, (gt_half F N).
  - intros _ ->. split; [done|]. by intros ->.
  - intros ->. eauto.
Qed.

Lemma ensure_bucket_here key (ms : gmap Z Bucket) :
  is_Some (ensure_bucket key ms !! key).
Proof.
  unfold ensure_bucket. destruct (ms !! key) eqn:E.
  - rewrite E. eauto.
  - rewrite lookup_insert_eq. eauto.
Qed.

Lemma ensure_bucket_keeps key j (ms : gmap Z Bucket) :
  is_Some (ms !! j) → is_Some (ensure_bucket key ms !! j).
Proof.
  unfold ensure_bucket. destruct (ms !! key) eqn:E; [done|].
  intros Hj. destruct (decide (key = j)) as [->|Hne].
  - rewrite lookup_insert_eq. eauto.
  - by rewrite lookup_insert_ne.
Qed.

Lemma insert_keeps key j b (ms : gmap Z Bucket) :
  is_Some (ms !! j) → is_Some (<[key := b]> ms !! j).
Proof.
  intros Hj. destruct (decide (key = j)) as [->|Hne].
  - rewrite lookup_insert_eq. eauto.
  - by rewrite lookup_insert_ne.
Qed.

Lemma current_bucket_keeps nd nd' :
  state nd' = state nd →
  (∀ j, is_Some (messages nd !! j) → is_Some (messages nd' !! j)) →
  is_Some (current_bucket nd) → is_Some (current_bucket nd').
Proof.
  unfold current_bucket. intros -> Hm.
  destruct (NodeState.k (state nd)) as [k0|]; [|by intros [? ?]].
  destruct (messages nd !! k0) as [b|] eqn:E; [|by intros [? ?]].
  intros _. destruct (Hm k0) as [b' ->]; [rewrite E|]; eauto.
Qed.

Lemma current_bucket_Some nd k0 b :
  current_bucket nd = Some (k0, b) ↔
  NodeState.k (state nd) = Some k0 ∧ messages nd !! k0 = Some b.
Proof.
  unfold current_bucket.
  destruct (NodeState.k (state nd)) as [k1|]; [|by split; [|intros []]].
  destruct (messages nd !! k1) as [b1|] eqn:E.
  - split; [by intros [= <- <-]|]. intros [[= <-] Hb]. congruence.
  - split; [done|]. intros [[= <-] Hb]. congruence.
Qed.

Lemma message_keeps m nd j :
  is_Some (messages nd !! j) → is_Some (messages (message cfg m nd).1 !! j).
Proof.
  unfold message. intros Hj.
  destruct (NodeState.killed (state nd) || isFaulty); [done|]. simpl.
  destruct (ensure_bucket_here (Message.k m) (messages nd)) as [b ->].
  destruct (Message.type m); by apply insert_keeps, ensure_bucket_keeps.
Qed.

Lemma message_frame m nd :
  let nd' := (message cfg m nd).1 in
  state nd' = state nd ∧ consensusRunning nd' = consensusRunning nd ∧
  stepTimeout nd' = stepTimeout nd ∧ timers nd' = timers nd ∧
  running nd' = running nd ∧ sent nd' = sent nd ∧ log nd' = log nd.
Proof.
  unfold message.
  by destruct (NodeState.killed (state nd) || isFaulty).
Qed.

Lemma message_inv m nd : Inv nd → Inv (message cfg m nd).1.
Proof.
  intros [H1 H2 H3 H4 H5 H6 H7 H8 H9].
  destruct (message_frame m nd) as (Es & Ec & Et & Em & Er & Esn & El).
  split; rewrite ?Es, ?Ec, ?Et, ?Em, ?Er, ?Esn; try done.
  destruct H4 as [?|(? & ? & ? & ?)]; [by left|right].
  repeat split; try done.
  eapply current_bucket_keeps; [done| |done].
  intros j. apply message_keeps.
Qed.

Lemma getState_inv nd : Inv nd → Inv (getState cfg nd).1.
Proof.
  intros [H1 H2 H3 H4 H5 H6 H7 H8 H9]. unfold getState.
  destruct (gt_half F N && negb isFaulty) eqn:E; [|by split].
  apply andb_true_iff in E as [Eg Ef]. apply negb_true_iff in Ef.
  destruct (H2 Ef Eg) as (Hx & Hd & Hk & Hr).
  destruct nd as [[kl xv dc kv] ms cr sto tm nt rn sn lg]; simpl in *.
  subst. simpl. by split.
Qed.

Lemma stop_inv nd : Inv nd → Inv (stop nd).1.
Proof.
  intros [H1 H2 H3 H4 H5 H6 H7 H8 H9]. unfold stop.
  destruct nd as [[kl xv dc kv] ms cr sto tm nt rn sn lg]; simpl in *.
  assert (Hclr : match sto with Some h => delete h tm | None => tm end = ∅).
  { destruct sto as [h|].
    - apply map_eq. intros j. rewrite lookup_empty.
      destruct (decide (h = j)) as [->|Hne]; [apply lookup_delete_eq|].
      rewrite lookup_delete_ne by done.
      destruct (tm !! j) eqn:Ej; [|done].
      specialize (H3 j (ltac:(eauto))). congruence.
    - apply map_eq. intros j. rewrite lookup_empty.
      destruct (tm !! j) eqn:Ej; [|done].
      specialize (H3 j (ltac:(eauto))). congruence. }
  destruct sto as [h|]; simpl in *; rewrite Hclr.
  all: split; simpl; try done.
  all: try (intros Hf; destruct (H1 Hf) as (?&?&?&?&?&?); done).
  all: try (intros h' [? Hh']; by rewrite lookup_empty in Hh').
  all: try (destruct H4 as [?|(? & ? & ? & ?)]; [by left|by right]).
Qed.

(** [2F <= N] and [F > N/2] exclude each other. *)
Lemma le_half_gt_half a n : le_half a n = negb (gt_half a n).
Proof.
  unfold le_half, gt_half.
  destruct (Z.leb_spec (2 * a) n), (Z.ltb_spec n (2 * a)); simpl; lia.
Qed.

Lemma singleton_timer (n : nat) (d : Z) h :
  is_Some (<[n := d]> (∅ : gmap nat Z) !! h) → Some n = Some h.
Proof.
  destruct (decide (n = h)) as [->|Hne]; [done|].
  rewrite lookup_insert_ne, lookup_empty by done. by intros [? ?].
Qed.

Lemma benOrStep_inv nd :
  Inv nd → timers nd = ∅ → running nd = [] → consensusRunning nd = true →
  Inv (benOrStep cfg nd).
Proof.
  intros HI Ht Hr Hc. pose proof HI as [H1 H2 H3 H4 H5 H6 H7 H8 H9].
  unfold benOrStep.
  destruct (NodeState.killed (state nd) || isFaulty) eqn:Ekf; [done|].
  apply orb_false_iff in Ekf as [Ekl Ef].
  specialize (H9 Ef) as ([xv Hx] & [dc Hd] & [kv Hk]).
  rewrite Ef. simpl negb. rewrite andb_true_r.
  destruct nd as [[kl xv' dc' kv'] ms cr sto tm nt rn sn lg]; simpl in *.
  subst.
  destruct (gt_half F N) eqn:Eg.
  - destruct (H2 Ef eq_refl) as (Hx & Hd & Hk & _). simplify_eq. simpl.
    split; simpl; try done; eauto using singleton_timer.
    all: intros; split_and?; try done; intros; congruence.
  - rewrite le_half_gt_half, Eg. simpl negb. rewrite andb_true_r.
    case_bool_decide as Edc; [done|].
    destruct dc; [done|].
    unfold suspend, broadcastMessage; simpl. rewrite Ef. simpl.
    split; simpl; try done.
    + intros; congruence.
    + intros; congruence.
    + right. repeat split; eauto.
      unfold current_bucket; simpl.
      by destruct (ensure_bucket_here (if kv =? 0 then 0 else kv) ms) as [b ->].
    + intros HN _. destruct (H8 HN Ef) as [-> HK].
      split; [done|]. intros _. specialize (HK eq_refl). by simplify_eq.
Qed.

(** A suspended call is alone, and it runs on a live node whose fault
    bound holds, before any decision. *)
Lemma suspended_call nd i c :
  Inv nd → running nd !! i = Some c →
  running nd = [c] ∧ i = 0%nat ∧ timers nd = ∅ ∧
  NodeState.decided (state nd) = Some false ∧
  (∃ k0 b, current_bucket nd = Some (k0, b)) ∧
  isFaulty = false ∧ gt_half F N = false ∧
  (consensusRunning nd = false → NodeState.killed (state nd) = true).
Proof.
  intros [H1 H2 H3 H4 H5 H6 H7 H8 H9] Hi.
  destruct H4 as [Hr|([c0 Hr] & Ht & Hd & [[k0 b] Hb])].
  { by rewrite Hr in Hi. }
  rewrite Hr in Hi. destruct i as [|i]; [|by destruct i]. simplify_eq/=.
  assert (isFaulty = false) as Ef.
  { destruct isFaulty eqn:E; [|done].
    destruct (H1 eq_refl) as (_ & _ & _ & ? & _). congruence. }
  assert (gt_half F N = false) as Eg.
  { destruct (gt_half F N) eqn:E; [|done].
    destruct (H2 Ef eq_refl) as (_ & _ & _ & ?). congruence. }
  repeat split; eauto.
  intros Hc. destruct (NodeState.killed (state nd)) eqn:Ek; [done|].
  destruct (H5 Hc) as [_ Hn]. specialize (Hn eq_refl). congruence.
Qed.

Lemma prune_lookup cur (ms : gmap Z Bucket) j :
  prune cur ms !! j = if decide (j < cur - 1) then None else ms !! j.
Proof.
  unfold prune. destruct (decide (j < cur - 1)) as [Hj|Hj].
  - apply map_lookup_filter_None. right. intros b _. simpl. tauto.
  - destruct (ms !! j) as [b|] eqn:E.
    + apply map_lookup_filter_Some. simpl. tauto.
    + apply map_lookup_filter_None. by left.
Qed.

Lemma resume_inv nd i c coin :
  Inv nd → running nd !! i = Some c →
  Inv (resume cfg c coin (set_running (delete i (running nd)) nd)).
Proof.
  intros HI Hi.
  destruct (suspended_call nd i c HI Hi)
    as (Hr & -> & Ht & Hd & (k0 & b & Hb) & Ef & Eg & Hck).
  destruct HI as [H1 H2 H3 H4 H5 H6 H7 H8 H9].
  apply current_bucket_Some in Hb as [Hk Hm].
  destruct nd as [[kl xv dc kv] ms cr sto tm nt rn sn lg]; simpl in *.
  subst. simpl.
  assert (Hcr : cr = false → kl = false → False).
  { intros Hc ->. by specialize (Hck Hc). }
  destruct c; simpl.
  - unfold after_send_R, current_bucket; simpl. rewrite Hm. simpl.
    split; simpl; try done; try (intros; congruence).
    + right. repeat split; eauto.
      unfold current_bucket; simpl. rewrite lookup_insert_eq. eauto.
    + intros Hc. split; [done|]. intros Hk. by destruct (Hcr Hc Hk).
  - unfold after_window_R, current_bucket, broadcastMessage; simpl.
    rewrite Hm, Ef. simpl.
    destruct kl; simpl.
    all: split; simpl; try done; try (intros; congruence).
    all: try (right; repeat split; eauto;
              unfold current_bucket; simpl; rewrite Hm; eauto).
    intros Hc. split; [done|]. intros _. by destruct (Hcr Hc).
  - unfold after_send_P, current_bucket; simpl. rewrite Hm. simpl.
    split; simpl; try done; try (intros; congruence).
    + right. repeat split; eauto.
      unfold current_bucket; simpl. rewrite lookup_insert_eq. eauto.
    + intros Hc. split; [done|]. intros Hk. by destruct (Hcr Hc Hk).
  - unfold after_window_P, current_bucket; simpl. rewrite Hm. simpl.
    destruct (Z.eqb_spec N 1) as [HN|HN].
    + split; simpl; try done; try (intros; congruence).
      * by left.
      * intros _. right; right. split; [done|]. by apply H8.
      * intros Hf. destruct (H9 Hf) as (? & _ & ?). eauto.
    + unfold resolve, next_round. rewrite le_half_gt_half, Eg. simpl.
      repeat case_match; simpl.
      all: split; simpl; try done; try (intros; congruence); eauto.
      all: eauto using singleton_timer.
      all: intros ->; by simplify_eq/=.
Qed.

Lemma start_inv ready nd : Inv nd → Inv (start cfg ready nd).1.
Proof.
  intros HI. pose proof HI as [H1 H2 H3 H4 H5 H6 H7 H8 H9]. unfold start.
  destruct (NodeState.killed (state nd) || isFaulty) eqn:Ekf; [done|].
  apply orb_false_iff in Ekf as [Ekl Ef].
  destruct (consensusRunning nd) eqn:Ec; [done|]. simpl.
  destruct (H5 eq_refl) as [Ht Hr]. specialize (Hr Ekl).
  rewrite Ef. simpl negb. rewrite andb_true_r.
  set (nd2 := if gt_half F N then _ else _).
  assert (Inv nd2 ∧ timers nd2 = ∅ ∧ running nd2 = [] ∧
          consensusRunning nd2 = true) as (HI2 & Ht2 & Hr2 & Hc2).
  { subst nd2.
    destruct nd as [[kl xv dc kv] ms cr sto tm nt rn sn lg]; simpl in *.
    subst. destruct (gt_half F N) eqn:Eg.
    - destruct (H2 Ef eq_refl) as (Hx & Hd & Hk & _). simplify_eq. simpl.
      split_and!; try done. split; simpl; try done.
      intros _ _. split; [done|]. by rewrite Eg.
    - split_and!; try done. split; simpl; try done.
      + by rewrite Eg.
      + intros HN Hf. destruct (H8 HN Hf) as [? HK].
        split; [done|]. intros _. by apply HK. }
  destruct ready; [|done]. by apply benOrStep_inv.
Qed.

Lemma timer_inv nd h d :
  Inv nd → timers nd !! h = Some d →
  Inv (benOrStep cfg (set_timers (delete h (timers nd)) nd)).
Proof.
  intros HI Hh. pose proof HI as [H1 H2 H3 H4 H5 H6 H7 H8 H9].
  assert (delete h (timers nd) = ∅) as Hdel.
  { apply map_eq. intros j. rewrite lookup_empty.
    destruct (decide (h = j)) as [->|Hne]; [apply lookup_delete_eq|].
    rewrite lookup_delete_ne by done.
    destruct (timers nd !! j) eqn:Ej; [|done].
    pose proof (H3 j (ltac:(eauto))). pose proof (H3 h (ltac:(eauto))).
    congruence. }
  assert (running nd = []) as Hr.
  { destruct H4 as [?|(_ & Ht & _)]; [done|].
    by rewrite Ht, lookup_empty in Hh. }
  assert (consensusRunning nd = true) as Hc.
  { destruct (consensusRunning nd) eqn:Ec; [done|].
    destruct (H5 eq_refl) as [Ht _]. by rewrite Ht, lookup_empty in Hh. }
  rewrite Hdel. apply benOrStep_inv; try done.
  destruct nd as [[kl xv dc kv] ms cr sto tm nt rn sn lg]; simpl in *.
  split; simpl; try done.
  - intros Hf. destruct (H1 Hf) as (?&?&?&?&?&?). done.
  - intros j [? Hj]. by rewrite lookup_empty in Hj.
  - left. done.
Qed.

Lemma step_inv nd e : Inv nd → Inv (step cfg nd e).
Proof.
  intros HI. unfold step, handle. destruct e as [|m|ready| | |h|i coin].
  - done.
  - pose proof (message_inv m nd HI). by destruct (message cfg m nd).
  - pose proof (start_inv ready nd HI). by destruct (start cfg ready nd).
  - pose proof (stop_inv nd HI). by destruct (stop nd).
  - pose proof (getState_inv nd HI). by destruct (getState cfg nd).
  - destruct (timers nd !! h) as [d|] eqn:Eh; [|done]. simpl.
    by eapply timer_inv.
  - destruct (running nd !! i) as [c|] eqn:Ei; [|done]. simpl.
    by apply resume_inv.
Qed.

Lemma run_snoc nd evs e :
  run cfg nd (evs ++ [e]) = step cfg (run cfg nd evs) e.
Proof. unfold run. by rewrite foldl_app. Qed.

Lemma run_app nd evs1 evs2 :
  run cfg nd (evs1 ++ evs2) = run cfg (run cfg nd evs1) evs2.
Proof. unfold run. by rewrite foldl_app. Qed.

Lemma run_inv nd evs : Inv nd → Inv (run cfg nd evs).
Proof.
  revert nd. induction evs as [|e evs IH]; intros nd HI; [done|].
  simpl. apply IH. by apply step_inv.
Qed.

Lemma reachable_inv nd : reachable cfg nd → Inv nd.
Proof. intros [evs ->]. apply run_inv, init_inv. Qed.

Lemma reachable_init : reachable cfg (init cfg).
Proof. by exists []. Qed.

Lemma reachable_run nd evs : reachable cfg nd → reachable cfg (run cfg nd evs).
Proof. intros [evs0 ->]. exists (evs0 ++ evs). by rewrite run_app. Qed.

Lemma reachable_step nd e : reachable cfg nd → reachable cfg (step cfg nd e).
Proof. intros H. by apply (reachable_run nd [e]). Qed.

Lemma gt_half_true a n : gt_half a n = true ↔ n < 2 * a.
Proof. unfold gt_half. apply Z.ltb_lt. Qed.

Lemma gt_half_false a n : gt_half a n = false ↔ 2 * a ≤ n.
Proof. unfold gt_half. rewrite Z.ltb_ge. done. Qed.

(** The same test with the quotient rounded down, as an integer [a] is
    above [n/2] exactly when it is above its floor. *)
Lemma gt_half_floor a n : gt_half a n = true ↔ n / 2 < a.
Proof.
  rewrite gt_half_true.
  pose proof (Z.div_mod n 2 ltac:(lia)).
  pose proof (Z.mod_pos_bound n 2 ltac:(lia)). lia.
Qed.

(** ** The claims *)

(** C1.  A non-faulty node configured with [F > N/2] never has
    [decided = true]: in every state the node can reach, whatever was
    posted to it, [state.decided] is [false], and so is the [decided] field
    of the snapshot that [/getState] answers there. *)
Theorem decided_stays_false_above_half nd :
  reachable cfg nd → isFaulty = false → N < 2 * F →
  NodeState.decided (state nd) = Some false ∧
  snapshot_decided (getState cfg nd).2 = Some false.
Proof.
  intros Hr Hf Hg. apply gt_half_true in Hg.
  destruct (reachable_inv nd Hr) as [_ H2 _ _ _ _ _ _ _].
  destruct (H2 Hf Hg) as (_ & Hd & _). split; [done|].
  unfold getState. by rewrite Hg, Hf.
Qed.

(** C6, as the code has it.  A non-faulty node configured with [F > N/2]
    does not advance its round counter: [state.k] is 15 when the node is
    created and 15 in every state it can reach, and every snapshot reports
    [k = 15]. *)
Theorem round_pinned_above_half nd :
  reachable cfg nd → isFaulty = false → N < 2 * F →
  NodeState.k (state (init cfg)) = Some 15 ∧
  NodeState.k (state nd) = Some 15 ∧
  snapshot_k (getState cfg nd).2 = Some 15.
Proof.
  intros Hr Hf Hg. apply gt_half_true in Hg.
  destruct (reachable_inv nd Hr) as [_ H2 _ _ _ _ _ _ _].
  destruct (H2 Hf Hg) as (_ & _ & Hk & _). split_and!; [|done|].
  - simpl. by rewrite Hg, Hf.
  - unfold getState. by rewrite Hg, Hf.
Qed.

(** C7.  [/getState] is read-only on every state the node can reach: it
    answers the current [state] (with [decided = false] when the node is
    non-faulty and [F > N/2]), and leaves [state] - [x], [decided], [k],
    [killed] - the message store and the other variables of the closure as
    they were. *)
Theorem getState_read_only nd :
  reachable cfg nd →
  (getState cfg nd).2 = Json (state nd) ∧
  (isFaulty = false → N < 2 * F →
   snapshot_decided (getState cfg nd).2 = Some false) ∧
  state (getState cfg nd).1 = state nd ∧
  messages (getState cfg nd).1 = messages nd ∧
  consensusRunning (getState cfg nd).1 = consensusRunning nd ∧
  stepTimeout (getState cfg nd).1 = stepTimeout nd ∧
  timers (getState cfg nd).1 = timers nd ∧
  running (getState cfg nd).1 = running nd ∧
  sent (getState cfg nd).1 = sent nd.
Proof.
  intros Hr. split_and!.
  2:{ intros Hf Hg. apply gt_half_true in Hg.
      unfold getState. by rewrite Hg, Hf. }
  all: destruct (reachable_inv nd Hr) as [_ H2 _ _ _ _ _ _ _].
  all: unfold getState.
  all: destruct (gt_half F N && negb isFaulty) eqn:E; [|done].
  all: apply andb_true_iff in E as [Eg Ef]; apply negb_true_iff in Ef.
  all: destruct (H2 Ef Eg) as (Hx & Hd & Hk & _).
  all: destruct nd as [[kl xv dc kv] ms cr sto tm nt rn sn lg]; simpl in *.
  all: by subst.
Qed.

(** C10.  A faulty node is inert: [x], [decided] and [k] are [null] when
    the node is created and in every state it can reach, nothing was ever
    handed to [fetch], and [broadcastMessage] and [benOrStep] return
    without any effect. *)
Theorem faulty_node_is_inert nd :
  reachable cfg nd → isFaulty = true →
  state (init cfg) = NodeState.mk false None None None ∧
  NodeState.x (state nd) = None ∧
  NodeState.decided (state nd) = None ∧
  NodeState.k (state nd) = None ∧
  sent nd = [] ∧
  (∀ m, broadcastMessage cfg m nd = nd) ∧
  benOrStep cfg nd = nd.
Proof.
  intros Hr Hf.
  destruct (reachable_inv nd Hr) as [H1 _ _ _ _ _ _ _ _].
  destruct (H1 Hf) as (Hx & Hd & Hk & _ & Hs & _). split_and!; try done.
  - simpl. by rewrite Hf.
  - intros m. unfold broadcastMessage. by rewrite Hf, orb_true_r.
  - unfold benOrStep. by rewrite Hf, orb_true_r.
Qed.

Lemma step_entries_app l1 l2 :
  step_entries (l1 ++ l2) = step_entries l1 ++ step_entries l2.
Proof. apply List.filter_app. Qed.

(** Once [killed] is set and the timer is disarmed, no event starts a
    step, arms a timer or posts to a peer. *)
Lemma stopped_stays_stopped nd e :
  NodeState.killed (state nd) = true → consensusRunning nd = false →
  timers nd = ∅ →
  NodeState.killed (state (step cfg nd e)) = true ∧
  consensusRunning (step cfg nd e) = false ∧
  timers (step cfg nd e) = ∅ ∧
  sent (step cfg nd e) = sent nd ∧
  step_entries (log (step cfg nd e)) = step_entries (log nd).
Proof.
  intros Hk Hc Ht.
  destruct nd as [[kl xv dc kv] ms cr sto tm nt rn sn lg]; simpl in *.
  subst. unfold step, handle.
  destruct e as [|m|ready| | |h|i coin]; simpl; try done.
  - unfold stop; simpl. destruct sto; simpl; [|done].
    by split_and!.
  - unfold getState; simpl.
    destruct (gt_half F N && negb isFaulty); simpl; [|done].
    rewrite step_entries_app. simpl. rewrite app_nil_r.
    by destruct (at_most_10 kv).
  - destruct (rn !! i) as [c|]; [|done]. simpl.
    destruct c; simpl.
    + unfold after_send_R. by destruct (current_bucket _) as [[??]|].
    + unfold after_window_R. by destruct (current_bucket _) as [[??]|].
    + unfold after_send_P. by destruct (current_bucket _) as [[??]|].
    + unfold after_window_P. destruct (current_bucket _) as [[??]|]; [|done].
      destruct (N =? 1); [done|]. simpl.
      rewrite step_entries_app. simpl. rewrite app_nil_r.
      split_and!; try done.
      unfold next_round, resolve. by repeat case_match.
Qed.

Lemma stopped_run nd evs :
  NodeState.killed (state nd) = true → consensusRunning nd = false →
  timers nd = ∅ →
  NodeState.killed (state (run cfg nd evs)) = true ∧
  consensusRunning (run cfg nd evs) = false ∧
  timers (run cfg nd evs) = ∅ ∧
  sent (run cfg nd evs) = sent nd ∧
  step_entries (log (run cfg nd evs)) = step_entries (log nd).
Proof.
  revert nd. induction evs as [|e evs IH]; intros nd Hk Hc Ht; [done|].
  destruct (stopped_stays_stopped nd e Hk Hc Ht) as (Hk1 & Hc1 & Ht1 & Hs1 & Hl1).
  destruct (IH _ Hk1 Hc1 Ht1) as (? & ? & ? & Hs2 & Hl2).
  simpl. split_and!; try done; congruence.
Qed.

(** C9.  [/stop] is idempotent: a second call changes nothing, and after
    the first the node is killed, the consensus is marked as not running
    and no [benOrStep] timer is armed.  Whatever happens afterwards, no
    [benOrStep] call gets past its [killed] test (no round starts) and no
    timer is armed again. *)
Theorem stop_idempotent nd evs :
  reachable cfg nd →
  (stop (stop nd).1).1 = (stop nd).1 ∧
  NodeState.killed (state (stop nd).1) = true ∧
  consensusRunning (stop nd).1 = false ∧
  stepTimeout (stop nd).1 = None ∧
  timers (stop nd).1 = ∅ ∧
  NodeState.killed (state (run cfg (stop nd).1 evs)) = true ∧
  consensusRunning (run cfg (stop nd).1 evs) = false ∧
  timers (run cfg (stop nd).1 evs) = ∅ ∧
  step_entries (log (run cfg (stop nd).1 evs)) = step_entries (log (stop nd).1).
Proof.
  intros Hr.
  assert (Inv (stop nd).1) as HI by apply stop_inv, reachable_inv, Hr.
  assert (NodeState.killed (state (stop nd).1) = true) as Hk.
  { unfold stop. by destruct (stepTimeout _). }
  assert (consensusRunning (stop nd).1 = false) as Hc.
  { unfold stop. by destruct (stepTimeout _). }
  assert (stepTimeout (stop nd).1 = None) as Hs.
  { unfold stop. simpl. by destruct (stepTimeout nd) eqn:E; simpl; rewrite ?E. }
  assert (timers (stop nd).1 = ∅) as Ht.
  { by destruct (inv_idle _ HI Hc). }
  split_and!; try done; try by apply stopped_run.
  revert Hk Hc Hs. generalize (stop nd).1. intros nd1 Hk Hc Hs.
  unfold stop. simpl. rewrite Hs.
  destruct nd1 as [[kl xv dc kv] ms cr sto tm nt rn sn lg]; simpl in *.
  by subst.
Qed.

(** After a decision no event writes [x] or [decided]. *)
Lemma decided_frame nd e :
  Inv nd → NodeState.decided (state nd) = Some true →
  NodeState.x (state (step cfg nd e)) = NodeState.x (state nd) ∧
  NodeState.decided (state (step cfg nd e)) = Some true.
Proof.
  intros [H1 H2 H3 H4 H5 H6 H7 H8 H9] Hd.
  assert (isFaulty = false) as Ef.
  { destruct isFaulty eqn:E; [|done].
    destruct (H1 eq_refl) as (_ & ? & _). congruence. }
  assert (gt_half F N = false) as Eg.
  { destruct (gt_half F N) eqn:E; [|done].
    destruct (H2 Ef eq_refl) as (_ & ? & _). congruence. }
  assert (running nd = []) as Hr.
  { destruct H4 as [?|(_ & _ & ? & _)]; [done|congruence]. }
  assert (∀ nd0, state nd0 = state nd → benOrStep cfg nd0 = nd0) as Hstep.
  { intros nd0 Hs. unfold benOrStep. rewrite Hs, Ef, Eg, Hd.
    rewrite le_half_gt_half, Eg. simpl.
    by destruct (NodeState.killed (state nd) || false). }
  unfold step, handle. destruct e as [|m|ready| | |h|i coin]; simpl.
  - done.
  - destruct (message_frame m nd) as (Es & _).
    destruct (message cfg m nd) as [nd' rs]. simpl in *. by rewrite Es.
  - unfold start. rewrite Ef, Eg. simpl.
    destruct (NodeState.killed (state nd) || false); [done|].
    destruct (consensusRunning nd); [done|]. simpl.
    destruct ready; [|done]. by rewrite Hstep.
  - unfold stop. simpl. by destruct (stepTimeout nd).
  - unfold getState. by rewrite Eg.
  - destruct (timers nd !! h); [|done]. simpl. by rewrite Hstep.
  - by rewrite Hr.
Qed.

(** C5, as the code has it.  In every state the node can reach,
    [decided = true] comes with [x] equal to 0 or 1, except on a
    single-node network started with the value ["?"], where the node decides
    with [x] still ["?"]; and once [decided] is [true] no sequence of events
    changes [x] or [decided]. *)
Theorem decided_is_final nd evs :
  reachable cfg nd → NodeState.decided (state nd) = Some true →
  (NodeState.x (state nd) = Some V0 ∨ NodeState.x (state nd) = Some V1 ∨
   (N = 1 ∧ initialValue = VUnknown ∧ NodeState.x (state nd) = Some VUnknown)) ∧
  NodeState.x (state (run cfg nd evs)) = NodeState.x (state nd) ∧
  NodeState.decided (state (run cfg nd evs)) = Some true.
Proof.
  intros Hr Hd. split.
  - destruct (inv_decided _ (reachable_inv nd Hr) Hd) as [?|[?|[HN Hx]]]; eauto.
    rewrite Hx. destruct initialValue eqn:E; eauto.
  - apply reachable_inv in Hr. revert nd Hr Hd.
    induction evs as [|e evs IH]; intros nd HI Hd; [done|].
    destruct (decided_frame nd e HI Hd) as [Hx Hd'].
    destruct (IH _ (step_inv nd e HI) Hd') as [Hx2 Hd2].
    simpl. split; [congruence|done].
Qed.

(** The closure counts as the specification does. *)
Lemma count_occurrences val l : count val l = occurrences val l.
Proof.
  unfold count. induction l as [|msg l IH]; [done|].
  rewrite filter_cons. simpl. rewrite <- IH.
  destruct (decide (Message.v msg = Some val)); simpl; lia.
Qed.

(** C2.  When the window for the P messages closes on a network with
    [N > 1] and [F <= N/2], the step leaves [x] and [decided] as the
    specification's [resolveFromP] gives them for the bucket of the current
    round, [messages[state.k]], with [N], [F] and the random bit: 0 when
    [Math.random()] came out below 0.5 ([coin]), 1 otherwise. *)
Theorem resolve_follows_spec nd i coin :
  reachable cfg nd → 1 < N → 2 * F ≤ N →
  running nd !! i = Some AwaitWindowP →
  ∃ k0 b,
    NodeState.k (state nd) = Some k0 ∧ messages nd !! k0 = Some b ∧
    (NodeState.x (state (step cfg nd (Resumes i coin))),
     NodeState.decided (state (step cfg nd (Resumes i coin)))) =
    (Some (resolveFromP_spec b N F (if coin then V0 else V1)).1,
     Some (resolveFromP_spec b N F (if coin then V0 else V1)).2).
Proof.
  intros Hr HN HF Hi.
  destruct (suspended_call nd i _ (reachable_inv nd Hr) Hi)
    as (Hrun & -> & Ht & Hd & (k0 & b & Hb) & Ef & Eg & Hck).
  exists k0, b. pose proof Hb as Hb'.
  apply current_bucket_Some in Hb' as [Hk Hm]. split_and!; [done..|].
  unfold step, handle. rewrite Hi. simpl.
  unfold after_window_P.
  assert (current_bucket (set_running (delete 0%nat (running nd)) nd)
          = Some (k0, b)) as -> by done.
  destruct (Z.eqb_spec N 1) as [?|_]; [lia|].
  unfold resolve, next_round, resolveFromP_spec, random_bit.
  rewrite le_half_gt_half, Eg, !count_occurrences. simpl.
  destruct nd as [[kl xv dc kv] ms cr sto tm nt rn sn lg]; simpl in *.
  subst.
  repeat case_bool_decide; repeat case_match; simpl; try done; lia.
Qed.

(** C3.  When the window for the R messages closes, the value the step
    proposes - the one it keeps for its own P message and posts to every
    peer unless the node was killed meanwhile - is the specification's
    [proposeFromR] of the bucket of the current round, [messages[state.k]],
    of [N] and of the random bit (0 when [Math.random()] came out below
    0.5, 1 otherwise), and of nothing else. *)
Theorem propose_follows_spec nd i coin :
  reachable cfg nd → running nd !! i = Some AwaitWindowR →
  ∃ k0 b,
    NodeState.k (state nd) = Some k0 ∧ messages nd !! k0 = Some b ∧
    running (step cfg nd (Resumes i coin)) =
      [AwaitSendP (proposeFromR_spec b N (if coin then V0 else V1))] ∧
    sent (step cfg nd (Resumes i coin)) =
      sent nd ++
      (if NodeState.killed (state nd) then []
       else map (λ j, (j, Message.mk P nodeId k0
                            (Some (proposeFromR_spec b N
                                     (if coin then V0 else V1)))))
                (peers cfg)).
Proof.
  intros Hr Hi.
  destruct (suspended_call nd i _ (reachable_inv nd Hr) Hi)
    as (Hrun & -> & Ht & Hd & (k0 & b & Hb) & Ef & Eg & Hck).
  exists k0, b. pose proof Hb as Hb'.
  apply current_bucket_Some in Hb' as [Hk Hm]. split; [done|]. split; [done|].
  unfold step, handle. rewrite Hi. simpl.
  unfold after_window_R.
  assert (current_bucket (set_running (delete 0%nat (running nd)) nd)
          = Some (k0, b)) as -> by done.
  assert (valueToPropose cfg (count V0 (r b)) (count V1 (r b)) coin =
          proposeFromR_spec b N (if coin then V0 else V1)) as ->.
  { unfold valueToPropose, proposeFromR_spec, gt_half, random_bit.
    rewrite !count_occurrences.
    repeat case_bool_decide; repeat case_match; try done; lia. }
  unfold broadcastMessage. simpl. rewrite Ef, Hrun.
  destruct (NodeState.killed (state nd)); simpl; [|done].
  by rewrite app_nil_r.
Qed.

(** C8, as the code has it.  When the step that ran round [k] ends on a
    network with more than one node, the round counter is [k + 1], no
    bucket is left for a round below [k], and every bucket for round [k] or
    above - later rounds included - is as it was. *)
Theorem round_pruning nd i coin :
  reachable cfg nd → N ≠ 1 → running nd !! i = Some AwaitWindowP →
  ∃ k0,
    NodeState.k (state nd) = Some k0 ∧
    NodeState.k (state (step cfg nd (Resumes i coin))) = Some (k0 + 1) ∧
    (∀ j, j < k0 → messages (step cfg nd (Resumes i coin)) !! j = None) ∧
    (∀ j, k0 ≤ j →
          messages (step cfg nd (Resumes i coin)) !! j = messages nd !! j).
Proof.
  intros Hr HN Hi.
  destruct (suspended_call nd i _ (reachable_inv nd Hr) Hi)
    as (Hrun & -> & Ht & Hd & (k0 & b & Hb) & Ef & Eg & Hck).
  exists k0. pose proof Hb as Hb'.
  apply current_bucket_Some in Hb' as [Hk Hm]. split; [done|].
  unfold step, handle. rewrite Hi. simpl.
  unfold after_window_P.
  assert (current_bucket (set_running (delete 0%nat (running nd)) nd)
          = Some (k0, b)) as -> by done.
  destruct (Z.eqb_spec N 1) as [?|_]; [done|].
  set (st1 := next_round cfg (resolve cfg _ _ coin _)).
  assert (NodeState.k st1 = Some (k0 + 1)) as Hk1.
  { subst st1. unfold next_round, resolve. rewrite le_half_gt_half, Eg. simpl.
    repeat case_match; simpl; by rewrite Hk. }
  assert ((∀ j, j < k0 → prune (k0 + 1) (messages nd) !! j = None) ∧
          (∀ j, k0 ≤ j →
                prune (k0 + 1) (messages nd) !! j = messages nd !! j)) as Hpr.
  { split; intros j Hj; rewrite prune_lookup; case_decide; try done; lia. }
  destruct (consensusRunning _ && negb _); simpl; rewrite Hk1; simpl.
  all: by split.
Qed.

(** Observers and peers leave a fault-respecting node where it is; posted
    messages only add to the store. *)
Lemma observer_frame nd e :
  gt_half F N = false → observer e →
  state (step cfg nd e) = state nd ∧
  running (step cfg nd e) = running nd ∧
  consensusRunning (step cfg nd e) = consensusRunning nd ∧
  ∀ j, is_Some (messages nd !! j) → is_Some (messages (step cfg nd e) !! j).
Proof.
  intros Eg He. unfold step, handle.
  destruct e as [|m|ready| | |h|i coin]; try done; simpl.
  - destruct (message_frame m nd) as (Es & Ec & _ & _ & Er & _).
    pose proof (message_keeps m nd) as Hm.
    destruct (message cfg m nd) as [nd' rs]. simpl in *. by split_and!.
  - unfold getState. by rewrite Eg.
Qed.

Lemma observers_frame nd es :
  gt_half F N = false → Forall observer es →
  state (run cfg nd es) = state nd ∧
  running (run cfg nd es) = running nd ∧
  consensusRunning (run cfg nd es) = consensusRunning nd ∧
  ∀ j, is_Some (messages nd !! j) → is_Some (messages (run cfg nd es) !! j).
Proof.
  intros Eg Hes. revert nd.
  induction Hes as [|e es He _ IH]; intros nd; [done|].
  destruct (observer_frame nd e Eg He) as (Es & Er & Ec & Hm).
  destruct (IH (step cfg nd e)) as (Es' & Er' & Ec' & Hm').
  simpl. split_and!; try congruence. eauto.
Qed.

Lemma observers_keep_first_step c nd es :
  gt_half F N = false → Forall observer es →
  in_first_step cfg c nd → in_first_step cfg c (run cfg nd es).
Proof.
  intros Eg Hes (Hs & Hr & Hm).
  destruct (observers_frame nd es Eg Hes) as (Es & Er & _ & Hk).
  split_and!; [congruence|congruence|eauto].
Qed.

Lemma first_step_starts nd :
  isFaulty = false → gt_half F N = false →
  state nd = state (init cfg) → running nd = [] →
  consensusRunning nd = false →
  in_first_step cfg AwaitSendR (step cfg nd (GetStart true)).
Proof.
  intros Ef Eg Hs Hr Hc. unfold step, handle, start, benOrStep.
  simpl in Hs. rewrite Ef, Eg in Hs.
  destruct nd as [st ms cr sto tm nt rn sn lg]; simpl in *. subst.
  rewrite Ef, Eg, le_half_gt_half, Eg. simpl.
  unfold in_first_step, suspend, broadcastMessage. simpl. rewrite Ef. simpl.
  split_and!; try done. apply ensure_bucket_here.
Qed.

Lemma first_step_resumes c coin nd :
  in_first_step cfg c nd →
  match c with
  | AwaitSendR => in_first_step cfg AwaitWindowR (step cfg nd (Resumes 0 coin))
  | AwaitWindowR =>
      ∃ vp, in_first_step cfg (AwaitSendP vp) (step cfg nd (Resumes 0 coin))
  | AwaitSendP _ => in_first_step cfg AwaitWindowP (step cfg nd (Resumes 0 coin))
  | AwaitWindowP =>
      N = 1 →
      state (step cfg nd (Resumes 0 coin)) =
        NodeState.mk false (Some initialValue) (Some true) (Some 0) ∧
      running (step cfg nd (Resumes 0 coin)) = []
  end.
Proof.
  intros (Hs & Hr & [b Hm]). unfold step, handle. rewrite Hr. simpl.
  destruct nd as [st ms cr sto tm nt rn sn lg]; simpl in *. subst.
  destruct c; simpl.
  - unfold after_send_R, current_bucket. simpl. rewrite Hm.
    unfold in_first_step. simpl. split_and!; try done.
    rewrite lookup_insert_eq. eauto.
  - unfold after_window_R, current_bucket. simpl. rewrite Hm.
    eexists. unfold in_first_step, suspend, broadcastMessage. simpl.
    destruct isFaulty; simpl; split_and!; try done; eauto.
  - unfold after_send_P, current_bucket. simpl. rewrite Hm.
    unfold in_first_step. simpl. split_and!; try done.
    rewrite lookup_insert_eq. eauto.
  - intros HN. unfold after_window_P, current_bucket. simpl.
    by rewrite Hm, HN.
Qed.

(** C4, as the code has it.  On a single-node network whose fault bound
    holds ([N = 1], [F <= N/2]), the first consensus step of a non-faulty
    node ends with [decided = true], [x] still the initial value and [k]
    still 0.  No peer message is needed ([es0] to [es4] may all be empty),
    and none that is posted while the step runs changes the outcome. *)
Theorem single_node_decides_at_once es0 es1 es2 es3 es4 c1 c2 c3 c4 :
  N = 1 → 2 * F ≤ N → isFaulty = false →
  Forall observer es0 → Forall observer es1 → Forall observer es2 →
  Forall observer es3 → Forall observer es4 →
  state (run cfg (init cfg)
           (es0 ++ GetStart true ::
            es1 ++ Resumes 0 c1 ::
            es2 ++ Resumes 0 c2 ::
            es3 ++ Resumes 0 c3 ::
            es4 ++ [Resumes 0 c4])) =
    NodeState.mk false (Some initialValue) (Some true) (Some 0) ∧
  running (run cfg (init cfg)
             (es0 ++ GetStart true ::
              es1 ++ Resumes 0 c1 ::
              es2 ++ Resumes 0 c2 ::
              es3 ++ Resumes 0 c3 ::
              es4 ++ [Resumes 0 c4])) = [].
Proof.
  intros HN HF Ef H0 H1 H2 H3 H4. apply gt_half_false in HF as Eg.
  rewrite run_app. simpl.
  destruct (observers_frame (init cfg) es0 Eg H0) as (Es & Er & Ec & _).
  pose proof (first_step_starts _ Ef Eg Es Er Ec) as Hp.
  rewrite run_app. simpl.
  apply (observers_keep_first_step _ _ es1 Eg H1) in Hp.
  apply (first_step_resumes _ c1) in Hp. simpl in Hp.
  rewrite run_app. simpl.
  apply (observers_keep_first_step _ _ es2 Eg H2) in Hp.
  apply (first_step_resumes _ c2) in Hp as [vp Hp].
  rewrite run_app. simpl.
  apply (observers_keep_first_step _ _ es3 Eg H3) in Hp.
  apply (first_step_resumes _ c3) in Hp. simpl in Hp.
  rewrite run_app. simpl.
  apply (observers_keep_first_step _ _ es4 Eg H4) in Hp.
  apply (first_step_resumes _ c4) in Hp. simpl in Hp.
  by apply Hp.
Qed.

End Invariant.

(** ** The claims on concrete networks *)

Lemma decided_stays_false_above_half_witness :
  NodeState.decided (state above_half_running) = Some false ∧
  snapshot_decided (getState three_two above_half_running).2 = Some false.
Proof.
  apply (decided_stays_false_above_half three_two above_half_running).
  - by eexists.
  - reflexivity.
  - simpl. lia.
Defined.

Lemma round_pinned_above_half_witness :
  NodeState.k (state (init three_two)) = Some 15 ∧
  NodeState.k (state above_half_running) = Some 15 ∧
  snapshot_k (getState three_two above_half_running).2 = Some 15.
Proof.
  apply (round_pinned_above_half three_two above_half_running).
  - by eexists.
  - reflexivity.
  - simpl. lia.
Defined.

(** C6 as stated fails: on [three_two] the node has run four steps, and
    the round its snapshot reports is the round it was created with. *)
Lemma round_not_advanced_above_half :
  length (step_entries (log above_half_running)) = 4%nat ∧
  ∃ k_init k_now,
    NodeState.k (state (init three_two)) = Some k_init ∧
    snapshot_k (getState three_two above_half_running).2 = Some k_now ∧
    ¬ (k_init < k_now).
Proof.
  split; [by vm_compute|]. exists 15, 15. split_and!; [by vm_compute..|lia].
Qed.

Lemma getState_read_only_witness :
  (getState three_two above_half_running).2 =
    Json (state above_half_running) ∧
  state (getState three_two above_half_running).1 = state above_half_running.
Proof.
  destruct (getState_read_only three_two above_half_running) as (H1 & _ & H2 & _).
  - by eexists.
  - by split.
Defined.

Lemma faulty_node_is_inert_witness :
  NodeState.x (state faulty_poked) = None ∧
  NodeState.decided (state faulty_poked) = None ∧
  NodeState.k (state faulty_poked) = None ∧
  sent faulty_poked = [].
Proof.
  destruct (faulty_node_is_inert three_faulty faulty_poked)
    as (_ & Hx & Hd & Hk & Hs & _).
  - by eexists.
  - reflexivity.
  - by split_and!.
Defined.

Lemma stop_idempotent_witness :
  (stop (stop at_window_P).1).1 = (stop at_window_P).1 ∧
  step_entries
    (log (run three_one (stop at_window_P).1
              [Resumes 0 true; GetStart true; TimerFires 0])) =
  step_entries (log (stop at_window_P).1).
Proof.
  destruct (stop_idempotent three_one at_window_P
              [Resumes 0 true; GetStart true; TimerFires 0])
    as (H1 & _ & _ & _ & _ & _ & _ & _ & H2).
  - apply reachable_run. by eexists.
  - by split.
Defined.

Lemma decided_is_final_witness :
  NodeState.x (state (run alone_unknown alone_decided [GetStart true; GetStop]))
  = NodeState.x (state alone_decided) ∧
  NodeState.decided
    (state (run alone_unknown alone_decided [GetStart true; GetStop]))
  = Some true.
Proof.
  apply (decided_is_final alone_unknown alone_decided [GetStart true; GetStop]).
  - by eexists.
  - by vm_compute.
Defined.

(** C5 as stated fails: the single node of [alone_unknown] decides with
    [x] still ["?"]. *)
Lemma decided_with_unknown_value :
  reachable alone_unknown alone_decided ∧
  NodeState.decided (state alone_decided) = Some true ∧
  NodeState.x (state alone_decided) = Some VUnknown ∧
  ¬ (NodeState.x (state alone_decided) = Some V0 ∨
     NodeState.x (state alone_decided) = Some V1).
Proof.
  split; [by eexists|]. split_and!; [by vm_compute..|].
  by intros [H|H]; vm_compute in H.
Qed.

Lemma resolve_follows_spec_witness :
  (NodeState.x (state (step three_one at_window_P (Resumes 0 true))),
   NodeState.decided (state (step three_one at_window_P (Resumes 0 true))))
  = (Some V1, Some true) ∧
  (NodeState.x (state (step four_one four_at_window_P (Resumes 0 true))),
   NodeState.decided (state (step four_one four_at_window_P (Resumes 0 true))))
  = (Some V1, Some false) ∧
  (NodeState.x (state (step three_one alone_at_window_P (Resumes 0 true))),
   NodeState.decided
     (state (step three_one alone_at_window_P (Resumes 0 true))))
  = (Some V0, Some false) ∧
  (NodeState.x (state (step three_one alone_at_window_P (Resumes 0 false))),
   NodeState.decided
     (state (step three_one alone_at_window_P (Resumes 0 false))))
  = (Some V1, Some false).
Proof.
  split_and!.
  - destruct (resolve_follows_spec three_one at_window_P 0 true)
      as (k0 & b & Hk & Hb & ->).
    + apply reachable_run. by eexists.
    + simpl. lia.
    + simpl. lia.
    + by vm_compute.
    + vm_compute in Hk. injection Hk as <-.
      vm_compute in Hb. injection Hb as <-. by vm_compute.
  - destruct (resolve_follows_spec four_one four_at_window_P 0 true)
      as (k0 & b & Hk & Hb & ->).
    + by eexists.
    + simpl. lia.
    + simpl. lia.
    + by vm_compute.
    + vm_compute in Hk. injection Hk as <-.
      vm_compute in Hb. injection Hb as <-. by vm_compute.
  - destruct (resolve_follows_spec three_one alone_at_window_P 0 true)
      as (k0 & b & Hk & Hb & ->).
    + apply reachable_run. by eexists.
    + simpl. lia.
    + simpl. lia.
    + by vm_compute.
    + vm_compute in Hk. injection Hk as <-.
      vm_compute in Hb. injection Hb as <-. by vm_compute.
  - destruct (resolve_follows_spec three_one alone_at_window_P 0 false)
      as (k0 & b & Hk & Hb & ->).
    + apply reachable_run. by eexists.
    + simpl. lia.
    + simpl. lia.
    + by vm_compute.
    + vm_compute in Hk. injection Hk as <-.
      vm_compute in Hb. injection Hb as <-. by vm_compute.
Defined.

Lemma propose_follows_spec_witness :
  running (step three_one at_window_R (Resumes 0 true)) = [AwaitSendP V1] ∧
  sent (step three_one at_window_R (Resumes 0 true)) =
    sent at_window_R ++
    [(1, Message.mk P 0 0 (Some V1)); (2, Message.mk P 0 0 (Some V1))] ∧
  running (step three_one alone_at_window_R (Resumes 0 true))
  = [AwaitSendP V0] ∧
  running (step three_one alone_at_window_R (Resumes 0 false))
  = [AwaitSendP V1].
Proof.
  split_and!.
  - destruct (propose_follows_spec three_one at_window_R 0 true)
      as (k0 & b & Hk & Hb & -> & _).
    + by eexists.
    + by vm_compute.
    + vm_compute in Hk. injection Hk as <-.
      vm_compute in Hb. injection Hb as <-. by vm_compute.
  - destruct (propose_follows_spec three_one at_window_R 0 true)
      as (k0 & b & Hk & Hb & _ & ->).
    + by eexists.
    + by vm_compute.
    + vm_compute in Hk. injection Hk as <-.
      vm_compute in Hb. injection Hb as <-. by vm_compute.
  - destruct (propose_follows_spec three_one alone_at_window_R 0 true)
      as (k0 & b & Hk & Hb & -> & _).
    + by eexists.
    + by vm_compute.
    + vm_compute in Hk. injection Hk as <-.
      vm_compute in Hb. injection Hb as <-. by vm_compute.
  - destruct (propose_follows_spec three_one alone_at_window_R 0 false)
      as (k0 & b & Hk & Hb & -> & _).
    + by eexists.
    + by vm_compute.
    + vm_compute in Hk. injection Hk as <-.
      vm_compute in Hb. injection Hb as <-. by vm_compute.
Defined.

Lemma round_pruning_witness :
  ∃ k0,
    NodeState.k (state at_window_P) = Some k0 ∧
    NodeState.k (state (step three_one at_window_P (Resumes 0 true)))
    = Some (k0 + 1) ∧
    (∀ j, j < k0 →
          messages (step three_one at_window_P (Resumes 0 true)) !! j = None) ∧
    (∀ j, k0 ≤ j →
          messages (step three_one at_window_P (Resumes 0 true)) !! j
          = messages at_window_P !! j).
Proof.
  apply (round_pruning three_one at_window_P 0 true).
  - apply reachable_run. by eexists.
  - simpl. lia.
  - by vm_compute.
Defined.

(** C8 as stated fails in its second half: when node 0 of [three_one]
    moves from round 0 to round 1, the bucket of round 2, filled by a peer
    that is ahead, stays in the store. *)
Lemma later_round_bucket_survives :
  running at_window_P !! 0%nat = Some AwaitWindowP ∧
  NodeState.k (state at_window_P) = Some 0 ∧
  NodeState.k (state (step three_one at_window_P (Resumes 0 true))) = Some 1 ∧
  is_Some (messages (step three_one at_window_P (Resumes 0 true)) !! 2) ∧
  ¬ only_current_and_previous (step three_one at_window_P (Resumes 0 true)).
Proof.
  assert (is_Some (messages (step three_one at_window_P (Resumes 0 true)) !! 2))
    as Hb by (vm_compute; eauto).
  split_and!; [by vm_compute..|done|].
  intros H. destruct (H 2 Hb) as [E|E]; by vm_compute in E.
Qed.

Lemma single_node_decides_at_once_witness :
  state (run alone_unknown (init alone_unknown)
           ([GetGetState] ++ GetStart true ::
            [PostMessage (from_peer R 0 0 V0)] ++ Resumes 0 true ::
            [] ++ Resumes 0 false ::
            [PostMessage (from_peer P 0 0 V0); GetStatus] ++ Resumes 0 true ::
            [] ++ [Resumes 0 false])) =
    NodeState.mk false (Some VUnknown) (Some true) (Some 0) ∧
  running (run alone_unknown (init alone_unknown)
             ([GetGetState] ++ GetStart true ::
              [PostMessage (from_peer R 0 0 V0)] ++ Resumes 0 true ::
              [] ++ Resumes 0 false ::
              [PostMessage (from_peer P 0 0 V0); GetStatus] ++ Resumes 0 true ::
              [] ++ [Resumes 0 false])) = [].
Proof.
  apply (single_node_decides_at_once alone_unknown
           [GetGetState] [PostMessage (from_peer R 0 0 V0)] []
           [PostMessage (from_peer P 0 0 V0); GetStatus] []
           true false true false).
  - reflexivity.
  - simpl. lia.
  - reflexivity.
  - repeat constructor.
  - repeat constructor.
  - repeat constructor.
  - repeat constructor.
  - repeat constructor.
Defined.

(** C4 as stated fails: the single non-faulty node of [alone_one], whose
    [F = 1] is above [N/2], finishes its first step undecided and in
    round 15. *)
Lemma single_node_above_half_undecided :
  Config.N alone_one = 1 ∧ Config.isFaulty alone_one = false ∧
  running (run alone_one (init alone_one) [GetStart true]) = [] ∧
  NodeState.decided (state (run alone_one (init alone_one) [GetStart true]))
  = Some false ∧
  NodeState.k (state (run alone_one (init alone_one) [GetStart true]))
  = Some 15.
Proof. by vm_compute. Qed.

(** ** Further properties of the closure *)

Section Extra.
Context (cfg : Config.t).

Local Abbreviation nodeId := (Config.nodeId cfg).
Local Abbreviation N := (Config.N cfg).
Local Abbreviation F := (Config.F cfg).
Local Abbreviation initialValue := (Config.initialValue cfg).
Local Abbreviation isFaulty := (Config.isFaulty cfg).

Lemma init_inv2 : Inv2 cfg (init cfg).
Proof.
  split; simpl; try done.
  - intros ->. destruct (gt_half F N); eexists; split; done.
  - intros ->. by left.
  - intros -> ->. by left.
Qed.

Lemma peers_elem i : i ∈ peers cfg ↔ 0 ≤ i < N ∧ i ≠ nodeId.
Proof.
  unfold peers. rewrite list_elem_of_filter, elem_of_seqZ. naive_solver lia.
Qed.

(** A posted message keeps what the buckets held. *)
Lemma message_bucket m nd j b :
  messages nd !! j = Some b →
  ∃ b', messages (message cfg m nd).1 !! j = Some b' ∧
        (∀ y, y ∈ r b → y ∈ r b') ∧ (∀ y, y ∈ p b → y ∈ p b').
Proof.
  intros Hj. unfold message.
  destruct (NodeState.killed (state nd) || isFaulty); [by exists b|]. simpl.
  assert (ensure_bucket (Message.k m) (messages nd) !! j = Some b) as Hj'.
  { unfold ensure_bucket. destruct (messages nd !! Message.k m) eqn:E; [done|].
    rewrite lookup_insert_ne; [done|]. intros <-. congruence. }
  destruct (ensure_bucket (Message.k m) (messages nd) !! Message.k m)
    as [b0|] eqn:E0; [|by exists b].
  destruct (decide (Message.k m = j)) as [<-|Hne].
  - simplify_eq. destruct (Message.type m); rewrite lookup_insert_eq;
      eexists; (split; [done|]); simpl; split; intros y Hy;
      rewrite ?elem_of_app; eauto.
  - destruct (Message.type m); rewrite lookup_insert_ne by done; by exists b.
Qed.

Lemma message_inv2 m nd : Inv2 cfg nd → Inv2 cfg (message cfg m nd).1.
Proof.
  intros [H1 H2 H3 H4 H5 H6 H7].
  destruct (message_frame cfg m nd) as (Es & Ec & Et & Em & Er & Esn & El).
  split; rewrite ?Es, ?Ec, ?Et, ?Em, ?Er, ?Esn; try done.
  intros c Hc. destruct (H7 c Hc) as (k0 & b & Hb & Hown).
  apply current_bucket_Some in Hb as [Hk Hm].
  destruct (message_bucket m nd k0 b Hm) as (b' & Hm' & Hr & Hp).
  exists k0, b'. split; [apply current_bucket_Some; by rewrite Es|].
  rewrite Es. destruct c; simpl in *; try done; try naive_solver.
Qed.

Lemma getState_inv2 nd : Inv cfg nd → Inv2 cfg nd → Inv2 cfg (getState cfg nd).1.
Proof.
  intros [_ G2 _ _ _ _ _ _ _] [H1 H2 H3 H4 H5 H6 H7]. unfold getState.
  destruct (gt_half F N && negb isFaulty) eqn:E; [|by split].
  apply andb_true_iff in E as [Eg Ef]. apply negb_true_iff in Ef.
  destruct (G2 Ef Eg) as (Hx & Hd & Hk & Hr).
  destruct nd as [[kl xv dc kv] ms cr sto tm nt rn sn lg]; simpl in *.
  subst. simpl. by split.
Qed.

Lemma stop_inv2 nd : Inv2 cfg nd → Inv2 cfg (stop nd).1.
Proof.
  intros [H1 H2 H3 H4 H5 H6 H7]. unfold stop.
  destruct nd as [[kl xv dc kv] ms cr sto tm nt rn sn lg]; simpl in *.
  destruct sto as [h|]; simpl; split; simpl; try done.
  intros h' d Hh. apply lookup_delete_Some in Hh as [_ Hh]. eauto.
Qed.

Lemma own_posts_R k0 xv :
  0 ≤ k0 →
  xv = Some initialValue ∨ xv = Some V0 ∨ xv = Some V1 →
  Forall (own_post cfg) (map (λ i, (i, Message.mk R nodeId k0 xv)) (peers cfg)).
Proof.
  intros Hk Hx. apply Forall_forall. intros dm Hdm.
  apply list_elem_of_fmap in Hdm as (i & -> & Hi).
  apply peers_elem in Hi as [[? ?] Hne]. by split_and!.
Qed.

Lemma own_posts_P k0 vp :
  0 ≤ k0 → vp = V0 ∨ vp = V1 →
  Forall (own_post cfg)
         (map (λ i, (i, Message.mk P nodeId k0 (Some vp))) (peers cfg)).
Proof.
  intros Hk Hv. apply Forall_forall. intros dm Hdm.
  apply list_elem_of_fmap in Hdm as (i & -> & Hi).
  apply peers_elem in Hi as [[? ?] Hne]. split_and!; try done.
  simpl. destruct Hv as [-> | ->]; eauto.
Qed.

Lemma valueToPropose_bit c0 c1 coin :
  valueToPropose cfg c0 c1 coin = V0 ∨ valueToPropose cfg c0 c1 coin = V1.
Proof.
  unfold valueToPropose, random_bit. repeat case_match; eauto.
Qed.

Lemma benOrStep_inv2 nd :
  Inv cfg nd → Inv2 cfg nd → timers nd = ∅ → running nd = [] →
  Inv2 cfg (benOrStep cfg nd).
Proof.
  intros [_ G2 _ _ _ _ _ _ G9] HI Ht Hr.
  pose proof HI as [H1 H2 H3 H4 H5 H6 H7].
  unfold benOrStep.
  destruct (NodeState.killed (state nd) || isFaulty) eqn:Ekf; [done|].
  apply orb_false_iff in Ekf as [Ekl Ef].
  destruct (H1 Ef) as (kv & Hk & Hk0).
  specialize (G9 Ef) as ([xv Hx] & [dc Hd] & _).
  specialize (H3 Ef). specialize (H4 Ef). specialize (H6 Ef).
  rewrite Ef. simpl negb. rewrite andb_true_r.
  destruct nd as [[kl xv' dc' kv'] ms cr sto tm nt rn sn lg]; simpl in *.
  subst.
  destruct (gt_half F N) eqn:Eg.
  - destruct (G2 Ef eq_refl) as (Hx & Hd & Hk & _). simplify_eq. simpl.
    destruct cr; simpl; split; simpl; try done; eauto.
    intros h d Hh. apply lookup_insert_Some in Hh as [[_ <-]|[_ Hh]]; [done|].
    by rewrite lookup_empty in Hh.
  - rewrite le_half_gt_half, Eg. simpl negb. rewrite andb_true_r.
    case_bool_decide as Edc; [done|].
    unfold suspend, broadcastMessage; simpl. rewrite Ef. simpl.
    assert (0 ≤ (if kv =? 0 then 0 else kv)) as Hk1 by (case_match; lia).
    split; simpl; try done; eauto.
    + destruct (H4 eq_refl) as [[[= ->] ?]|?]; eauto.
    + apply Forall_app. split; [done|]. by apply own_posts_R.
    + intros _ ?. congruence.
    + intros c [= <-]. unfold self_delivered, current_bucket. simpl.
      destruct (ensure_bucket_here (if kv =? 0 then 0 else kv) ms) as [b ->].
      by exists (if kv =? 0 then 0 else kv), b.
Qed.

Lemma resume_inv2 nd i c coin :
  Inv cfg nd → Inv2 cfg nd → running nd !! i = Some c →
  Inv2 cfg (resume cfg c coin (set_running (delete i (running nd)) nd)).
Proof.
  intros GI HI Hi.
  destruct (suspended_call cfg nd i c GI Hi)
    as (Hr & -> & Ht & Hd & _ & Ef & Eg & Hck).
  destruct HI as [H1 H2 H3 H4 H5 H6 H7].
  destruct (H7 c Hr) as (k0 & b & Hb & Hown).
  apply current_bucket_Some in Hb as [Hk Hm].
  destruct (H1 Ef) as (k0' & Hk' & Hk0). rewrite Hk in Hk'. injection Hk' as <-.
  specialize (H3 Ef). specialize (H4 Ef Eg).
  destruct nd as [[kl xv dc kv] ms cr sto tm nt rn sn lg]; simpl in *.
  subst. simpl.
  destruct c as [| |vp|]; simpl.
  - unfold after_send_R, current_bucket; simpl. rewrite Hm. simpl.
    split; simpl; try done; eauto; try (intros; congruence).
    intros c [= <-]. unfold self_delivered, current_bucket. simpl.
    rewrite lookup_insert_eq. eexists _, _. split; [done|]. simpl.
    apply elem_of_app. right. by apply list_elem_of_singleton.
  - unfold after_window_R, current_bucket, broadcastMessage; simpl.
    rewrite Hm, Ef. simpl.
    pose proof (valueToPropose_bit (count V0 (r b)) (count V1 (r b)) coin)
      as Hvp.
    assert (self_delivered cfg
              (AwaitSendP (valueToPropose cfg (count V0 (r b))
                                          (count V1 (r b)) coin))
              {| state := NodeState.mk kl xv (Some false) (Some k0);
                 messages := ms; consensusRunning := cr; stepTimeout := sto;
                 timers := ∅; nextTimer := nt; running := []; sent := sn;
                 log := lg |}) as Hself.
    { exists k0, b. unfold current_bucket. simpl. by rewrite Hm. }
    destruct Hself as (k1 & b1 & Hb1 & Hs1).
    destruct kl; simpl.
    all: split; simpl; try done; eauto; try (intros; congruence).
    all: try (intros c [= <-]; by exists k1, b1).
    apply Forall_app. split; [done|]. by apply own_posts_P.
  - unfold after_send_P, current_bucket; simpl. rewrite Hm. simpl.
    destruct Hown as [Hown Hvp].
    split; simpl; try done; eauto; try (intros; congruence).
    intros c [= <-]. unfold self_delivered, current_bucket. simpl.
    rewrite lookup_insert_eq. eexists _, _. split; [done|]. simpl.
    split; [done|]. exists vp. split; [done|].
    apply elem_of_app. right. by apply list_elem_of_singleton.
  - unfold after_window_P, current_bucket; simpl. rewrite Hm. simpl.
    destruct (Z.eqb_spec N 1) as [HN|HN].
    + split; simpl; try done; eauto; try (intros; congruence).
    + unfold resolve, next_round. rewrite le_half_gt_half, Eg. simpl.
      assert (∀ d, <[nt := 100]> (∅ : gmap nat Z) !! d = None ∨
                   <[nt := 100]> (∅ : gmap nat Z) !! d = Some 100) as Hnt.
      { intros d. destruct (decide (nt = d)) as [->|Hne].
        - right. apply lookup_insert_eq.
        - left. by rewrite lookup_insert_ne. }
      repeat case_match; simpl.
      all: split; simpl; try done; try (intros; congruence); eauto.
      all: try (eexists; split; [done|lia]).
      all: try (intros h d Hh; destruct (Hnt h); congruence).
      all: try (destruct coin; simpl; eauto).
Qed.

Lemma start_inv2 ready nd :
  Inv cfg nd → Inv2 cfg nd → Inv2 cfg (start cfg ready nd).1.
Proof.
  intros GI HI. pose proof GI as [G1 G2 G3 G4 G5 G6 G7 G8 G9].
  pose proof HI as [H1 H2 H3 H4 H5 H6 H7]. unfold start.
  destruct (NodeState.killed (state nd) || isFaulty) eqn:Ekf; [done|].
  apply orb_false_iff in Ekf as [Ekl Ef].
  destruct (consensusRunning nd) eqn:Ec; [done|]. simpl.
  destruct (G5 eq_refl) as [Ht Hr]. specialize (Hr Ekl).
  rewrite Ef. simpl negb. rewrite andb_true_r.
  set (nd2 := if gt_half F N then _ else _).
  assert (Inv cfg nd2 ∧ timers nd2 = ∅ ∧ running nd2 = []) as (GI2 & Ht2 & Hr2).
  { subst nd2.
    destruct nd as [[kl xv dc kv] ms cr sto tm nt rn sn lg]; simpl in *.
    subst. destruct (gt_half F N) eqn:Eg.
    - destruct (G2 Ef eq_refl) as (Hx & Hd & Hk & _). simplify_eq. simpl.
      split_and!; try done. split; simpl; try done.
      intros _ _. split; [done|]. by rewrite Eg.
    - split_and!; try done. split; simpl; try done.
      + by rewrite Eg.
      + intros HN Hf. destruct (G8 HN Hf) as [? HK].
        split; [done|]. intros _. by apply HK. }
  assert (Inv2 cfg nd2) as HI2.
  { subst nd2.
    destruct nd as [[kl xv dc kv] ms cr sto tm nt rn sn lg]; simpl in *.
    subst. destruct (gt_half F N) eqn:Eg.
    - destruct (G2 Ef eq_refl) as (Hx & Hd & Hk & _). simplify_eq. simpl.
      split; simpl; try done.
      + intros _ ?. congruence.
      + intros ? _. by apply H6.
    - split; simpl; try done.
      + intros ? _. by apply H4.
      + intros _ ?. congruence. }
  destruct ready; [|done]. by apply benOrStep_inv2.
Qed.

Lemma timer_inv2 nd h d :
  Inv cfg nd → Inv2 cfg nd → timers nd !! h = Some d →
  Inv2 cfg (benOrStep cfg (set_timers (delete h (timers nd)) nd)).
Proof.
  intros GI HI Hh. pose proof GI as [G1 G2 G3 G4 G5 G6 G7 G8 G9].
  pose proof HI as [H1 H2 H3 H4 H5 H6 H7].
  assert (delete h (timers nd) = ∅) as Hdel.
  { apply map_eq. intros j. rewrite lookup_empty.
    destruct (decide (h = j)) as [->|Hne]; [apply lookup_delete_eq|].
    rewrite lookup_delete_ne by done.
    destruct (timers nd !! j) eqn:Ej; [|done].
    pose proof (G3 j (ltac:(eauto))). pose proof (G3 h (ltac:(eauto))).
    congruence. }
  assert (running nd = []) as Hr.
  { destruct G4 as [?|(_ & Ht & _)]; [done|].
    by rewrite Ht, lookup_empty in Hh. }
  rewrite Hdel.
  destruct nd as [[kl xv dc kv] ms cr sto tm nt rn sn lg]; simpl in *.
  subst. apply benOrStep_inv2; try done.
  split; simpl; try done.
  - intros Hf. destruct (G1 Hf) as (?&?&?&?&?&?). done.
  - intros j [? Hj]. by rewrite lookup_empty in Hj.
  - by left.
Qed.

Lemma step_inv2 nd e : Inv cfg nd → Inv2 cfg nd → Inv2 cfg (step cfg nd e).
Proof.
  intros GI HI. unfold step, handle. destruct e as [|m|ready| | |h|i coin].
  - done.
  - pose proof (message_inv2 m nd HI). by destruct (message cfg m nd).
  - pose proof (start_inv2 ready nd GI HI). by destruct (start cfg ready nd).
  - pose proof (stop_inv2 nd HI). by destruct (stop nd).
  - pose proof (getState_inv2 nd GI HI). by destruct (getState cfg nd).
  - destruct (timers nd !! h) as [d|] eqn:Eh; [|done]. simpl.
    by eapply timer_inv2.
  - destruct (running nd !! i) as [c|] eqn:Ei; [|done]. simpl.
    by apply resume_inv2.
Qed.

Lemma run_inv2 nd evs :
  Inv cfg nd → Inv2 cfg nd → Inv2 cfg (run cfg nd evs).
Proof.
  revert nd. induction evs as [|e evs IH]; intros nd GI HI; [done|].
  simpl. apply IH; [by apply step_inv|by apply step_inv2].
Qed.

Lemma reachable_inv2 nd : reachable cfg nd → Inv2 cfg nd.
Proof. intros [evs ->]. apply run_inv2; [apply init_inv|apply init_inv2]. Qed.

(** X1.  The loop of [broadcastMessage] reaches every node [0 <= i < N]
    other than the node itself, each once; on a live node the call posts
    the message to exactly these, on a killed or faulty node it posts
    nothing. *)
Theorem broadcast_targets m nd :
  (∀ i, i ∈ peers cfg ↔ 0 ≤ i < N ∧ i ≠ nodeId) ∧
  NoDup (peers cfg) ∧
  sent (broadcastMessage cfg m nd) =
    sent nd ++
    (if NodeState.killed (state nd) || isFaulty then []
     else map (λ i, (i, m)) (peers cfg)).
Proof.
  split_and!.
  - apply peers_elem.
  - unfold peers. apply NoDup_filter, NoDup_seqZ.
  - unfold broadcastMessage.
    destruct (NodeState.killed (state nd) || isFaulty); simpl; [|done].
    by rewrite app_nil_r.
Qed.

(** X2.  Everything the node ever posted went to another node of the
    network, names the node as its sender, carries a round that is not
    negative and a value that is the initial value or a bit for an R
    message and a bit for a P message: the ["?"] that [valueToPropose]
    starts from is never sent. *)
Theorem posts_well_formed nd dm :
  reachable cfg nd → dm ∈ sent nd → own_post cfg dm.
Proof.
  intros Hr Hdm. apply reachable_inv2 in Hr as [_ _ _ _ H5 _ _].
  by eapply Forall_forall in H5.
Qed.

(** X3.  [/message] on a node that is neither killed nor faulty answers
    200 and appends the message to the list of its phase in the bucket of
    its round, creating the bucket when the store has none; the other list
    of that bucket, the buckets of the other rounds and the rest of the
    closure stay as they were. *)
Theorem message_recorded m nd :
  NodeState.killed (state nd) = false → isFaulty = false →
  (message cfg m nd).2 = Send 200 "Message received" ∧
  is_Some (messages (message cfg m nd).1 !! Message.k m) ∧
  r (bucket_of (message cfg m nd).1 (Message.k m)) =
    r (bucket_of nd (Message.k m)) ++
    (match Message.type m with R => [m] | P => [] end) ∧
  p (bucket_of (message cfg m nd).1 (Message.k m)) =
    p (bucket_of nd (Message.k m)) ++
    (match Message.type m with R => [] | P => [m] end) ∧
  (∀ j, j ≠ Message.k m →
        messages (message cfg m nd).1 !! j = messages nd !! j) ∧
  state (message cfg m nd).1 = state nd ∧
  running (message cfg m nd).1 = running nd ∧
  timers (message cfg m nd).1 = timers nd ∧
  sent (message cfg m nd).1 = sent nd.
Proof.
  intros Hk Hf.
  destruct (message_frame cfg m nd) as (Es & _ & _ & Et & Er & Esn & _).
  split_and!; try done.
  all: unfold message, bucket_of; rewrite Hk, Hf; simpl.
  all: unfold ensure_bucket.
  all: destruct (messages nd !! Message.k m) as [b|] eqn:E; simpl.
  all: rewrite ?E, ?lookup_insert_eq; simpl.
  all: destruct (Message.type m); simpl.
  all: rewrite ?lookup_insert_eq; simpl; rewrite ?app_nil_r; eauto.
  all: intros j Hj; by rewrite ?lookup_insert_ne.
Qed.

(** X4.  Once [/stop] was called, every later [/message] and [/start] is
    answered 500 and changes nothing, whatever happened in between. *)
Theorem stopped_node_rejects nd evs m ready :
  reachable cfg nd →
  handle cfg (run cfg (stop nd).1 evs) (PostMessage m) =
    (run cfg (stop nd).1 evs, Some (Send 500 "Node is faulty or killed")) ∧
  handle cfg (run cfg (stop nd).1 evs) (GetStart ready) =
    (run cfg (stop nd).1 evs, Some (Send 500 "Node is faulty or killed")).
Proof.
  intros Hr.
  assert (Inv cfg (stop nd).1) as HI by apply stop_inv, reachable_inv, Hr.
  assert (NodeState.killed (state (stop nd).1) = true) as Hk.
  { unfold stop. by destruct (stepTimeout _). }
  assert (consensusRunning (stop nd).1 = false) as Hc.
  { unfold stop. by destruct (stepTimeout _). }
  destruct (inv_idle _ _ HI Hc) as [Ht _].
  destruct (stopped_run cfg _ evs Hk Hc Ht) as (Hk' & _).
  unfold handle, message, start. by rewrite Hk'.
Qed.

Lemma benOrStep_flags nd :
  NodeState.killed (state (benOrStep cfg nd)) = NodeState.killed (state nd) ∧
  consensusRunning (benOrStep cfg nd) = consensusRunning nd.
Proof.
  unfold benOrStep.
  destruct nd as [[kl xv dc kv] ms cr sto tm nt rn sn lg]; simpl.
  unfold broadcastMessage; simpl.
  repeat case_match; simpl; done.
Qed.

(** X5.  [/start] is idempotent on every closure: a second call, whatever
    [nodesAreReady] answers then, leaves the closure as the first call left
    it. *)
Theorem start_idempotent nd ready1 ready2 :
  (start cfg ready2 (start cfg ready1 nd).1).1 = (start cfg ready1 nd).1.
Proof.
  unfold start at 2.
  destruct (NodeState.killed (state nd) || isFaulty) eqn:Ekf.
  { simpl. unfold start. by rewrite Ekf. }
  destruct (consensusRunning nd) eqn:Ec.
  { simpl. unfold start. by rewrite Ekf, Ec. }
  simpl. set (nd2 := if gt_half F N && negb isFaulty then _ else _).
  assert (NodeState.killed (state nd2) = NodeState.killed (state nd) ∧
          consensusRunning nd2 = true) as [Hk2 Hc2].
  { subst nd2. by destruct (gt_half F N && negb isFaulty). }
  set (nd3 := if ready1 then _ else _).
  assert (NodeState.killed (state nd3) = NodeState.killed (state nd) ∧
          consensusRunning nd3 = true) as [Hk3 Hc3].
  { subst nd3. destruct ready1; [|done].
    destruct (benOrStep_flags nd2) as [-> ->]. done. }
  unfold start. rewrite Hk3, Ekf, Hc3, Ec. done.
Qed.

Lemma never_ran_step nd e : never_ran cfg nd → never_ran cfg (step cfg nd e).
Proof.
  intros Hn. pose proof Hn as [Hr Ht Hl Hs Hx Hd Hk Hst]. unfold step, handle.
  destruct e as [|m|ready| | |h|i coin]; simpl; try done.
  - destruct (message_frame cfg m nd) as (Es & Ec & _ & Et & Er & Esn & El).
    destruct (message cfg m nd) as [nd' rs]. simpl in *.
    split; by rewrite ?Es, ?Ec, ?Et, ?Er, ?Esn, ?El.
  - unfold start.
    destruct (NodeState.killed (state nd) || isFaulty) eqn:Ekf; [done|].
    apply orb_false_iff in Ekf as [Ek Ef].
    destruct Hst as [?|[->|?]]; [congruence|done|congruence].
  - unfold stop. simpl.
    destruct (stepTimeout nd); simpl; split; simpl; eauto.
    by rewrite Ht, delete_empty.
  - unfold getState.
    destruct (gt_half F N && negb isFaulty) eqn:E; [|done].
    apply andb_true_iff in E as [Eg Ef]. apply negb_true_iff in Ef.
    simpl in Hx, Hd, Hk. rewrite Ef, Eg in *.
    destruct nd as [[kl xv dc kv] ms cr sto tm nt rn sn lg]; simpl in *.
    subst. simpl. split; simpl; try done; try by rewrite ?Ef, ?Eg.
    unfold step_entries in *. rewrite List.filter_app, Hl. done.
  - by rewrite Ht, lookup_empty.
  - by rewrite Hr.
Qed.

(** X6.  A [/start] that finds [nodesAreReady()] false consumes the start:
    it sets [consensusRunning] without calling [benOrStep], and no later
    request makes up for it.  Whatever follows, no step is ever entered,
    no timer armed, nothing posted, and [x], [decided] and [k] stay as
    [node(...)] set them. *)
Theorem start_before_ready_never_runs evs :
  running (run cfg (init cfg) (GetStart false :: evs)) = [] ∧
  timers (run cfg (init cfg) (GetStart false :: evs)) = ∅ ∧
  step_entries (log (run cfg (init cfg) (GetStart false :: evs))) = [] ∧
  sent (run cfg (init cfg) (GetStart false :: evs)) = [] ∧
  NodeState.x (state (run cfg (init cfg) (GetStart false :: evs))) =
    NodeState.x (state (init cfg)) ∧
  NodeState.decided (state (run cfg (init cfg) (GetStart false :: evs))) =
    NodeState.decided (state (init cfg)) ∧
  NodeState.k (state (run cfg (init cfg) (GetStart false :: evs))) =
    NodeState.k (state (init cfg)).
Proof.
  assert (never_ran cfg (step cfg (init cfg) (GetStart false))) as H0.
  { unfold step, handle, start. simpl.
    destruct isFaulty eqn:Ef; simpl.
    - split; simpl; rewrite ?Ef; eauto.
    - destruct (gt_half F N) eqn:Eg; simpl.
      all: split; simpl; rewrite ?Ef, ?Eg; eauto. }
  assert (∀ nd, never_ran cfg nd → never_ran cfg (run cfg nd evs)) as Hrun.
  { induction evs as [|e es IH]; intros nd Hn; [done|].
    simpl. by apply IH, never_ran_step. }
  simpl. by destruct (Hrun _ H0).
Qed.

(** X7.  A faulty node has two states only: the one [node(...)] builds and
    that one with [killed] set.  Every request but [/stop] leaves the whole
    closure untouched. *)
Theorem faulty_node_states nd :
  reachable cfg nd → isFaulty = true →
  nd = init cfg ∨ nd = (stop (init cfg)).1.
Proof.
  intros [evs ->] Hf. induction evs as [|e evs IH] using rev_ind; [by left|].
  rewrite run_snoc.
  assert (∀ nd0, nd0 = init cfg ∨ nd0 = (stop (init cfg)).1 →
                 step cfg nd0 e = init cfg ∨
                 step cfg nd0 e = (stop (init cfg)).1) as Hstep.
  { intros nd0 [-> | ->]; unfold step, handle;
      destruct e as [|m|ready| | |h|i coin]; simpl; eauto.
    all: unfold message, start, getState; simpl.
    all: rewrite ?Hf, ?andb_false_r; simpl; eauto. }
  by apply Hstep.
Qed.

(** [benOrStep] never writes another round into [state.k] than the one it
    finds there. *)
Lemma benOrStep_round nd :
  (gt_half F N = true → NodeState.k (state nd) = Some 15) →
  is_Some (NodeState.k (state nd)) →
  NodeState.k (state (benOrStep cfg nd)) = NodeState.k (state nd).
Proof.
  intros G2 [kv Hk]. unfold benOrStep.
  destruct (NodeState.killed (state nd) || isFaulty) eqn:Ekf; [done|].
  apply orb_false_iff in Ekf as [Ekl Ef].
  rewrite Ef. simpl negb. rewrite andb_true_r.
  destruct (gt_half F N) eqn:Eg.
  - specialize (G2 eq_refl).
    destruct nd as [[kl xv dc kv'] ms cr sto tm nt rn sn lg]; simpl in *.
    simplify_eq. simpl. by destruct cr.
  - destruct (bool_decide _ && le_half F N); [done|].
    unfold suspend, broadcastMessage. simpl. rewrite Ekl, Ef, Hk. simpl.
    destruct (Z.eqb_spec kv 0) as [->|?]; done.
Qed.

Lemma round_step nd e :
  Inv cfg nd → isFaulty = false →
  ∃ k0 k1,
    NodeState.k (state nd) = Some k0 ∧
    NodeState.k (state (step cfg nd e)) = Some k1 ∧ k0 ≤ k1 ≤ k0 + 1.
Proof.
  intros GI Ef. pose proof GI as [G1 G2 G3 G4 G5 G6 G7 G8 G9].
  destruct (G9 Ef) as (_ & _ & [k0 Hk]). exists k0.
  specialize (G2 Ef).
  assert (∀ st', NodeState.k st' = Some k0 →
          ∃ k1, NodeState.k (state nd) = Some k0 ∧
                NodeState.k st' = Some k1 ∧ k0 ≤ k1 ≤ k0 + 1) as Hsame.
  { intros st' ->. exists k0. split_and!; try done; lia. }
  unfold step, handle.
  destruct e as [|m|ready| | |h|i coin]; simpl.
  - by apply Hsame.
  - apply Hsame. destruct (message_frame cfg m nd) as (Es & _).
    destruct (message cfg m nd) as [nd' rs]. simpl in *. by rewrite Es.
  - apply Hsame. unfold start.
    destruct (NodeState.killed (state nd) || isFaulty); [done|].
    destruct (consensusRunning nd) eqn:Ec; [done|]. simpl.
    rewrite Ef. simpl negb. rewrite andb_true_r.
    destruct (gt_half F N) eqn:Eg.
    + destruct (G2 eq_refl) as (_ & _ & Hk15 & _).
      rewrite Hk in Hk15. injection Hk15 as ->.
      destruct ready; [|done]. rewrite benOrStep_round; simpl; eauto.
    + destruct ready; [|done]. rewrite benOrStep_round; simpl; eauto.
      intros; congruence.
  - apply Hsame. unfold stop. simpl. by destruct (stepTimeout nd).
  - apply Hsame. unfold getState. rewrite Ef. simpl negb.
    rewrite andb_true_r.
    destruct (gt_half F N) eqn:Eg; [|done].
    destruct (G2 eq_refl) as (_ & _ & Hk15 & _).
    rewrite Hk in Hk15. injection Hk15 as ->. simpl. by rewrite Hk.
  - apply Hsame. destruct (timers nd !! h) eqn:Eh; [|done]. simpl.
    rewrite benOrStep_round; simpl; eauto.
    intros Eg. by destruct (G2 Eg) as (_ & _ & ? & _).
  - destruct (running nd !! i) as [c|] eqn:Ei; [|by apply Hsame]. simpl.
    destruct (suspended_call cfg nd i c GI Ei)
      as (Hr & -> & Ht & Hd & (k0' & b & Hb) & _ & Eg & _).
    pose proof Hb as Hb'. apply current_bucket_Some in Hb' as [Hk' Hm].
    rewrite Hk in Hk'. injection Hk' as <-.
    assert (current_bucket (set_running (delete 0%nat (running nd)) nd)
            = Some (k0, b)) as Hb0 by done.
    destruct c; simpl.
    + apply Hsame. unfold after_send_R. by rewrite Hb0.
    + apply Hsame. unfold after_window_R, broadcastMessage. rewrite Hb0.
      simpl. by destruct (NodeState.killed (state nd) || isFaulty).
    + apply Hsame. unfold after_send_P. by rewrite Hb0.
    + unfold after_window_P. rewrite Hb0.
      destruct (N =? 1); [by apply Hsame|].
      exists (k0 + 1). split; [done|]. split; [|lia].
      set (st1 := next_round cfg (resolve cfg _ _ coin _)).
      assert (NodeState.k st1 = Some (k0 + 1)) as Hk1.
      { subst st1. unfold next_round, resolve.
        rewrite le_half_gt_half, Eg. simpl.
        repeat case_match; simpl; by rewrite Hk. }
      by destruct (consensusRunning _ && negb _).
Qed.

Lemma round_run nd evs k0 :
  Inv cfg nd → isFaulty = false → NodeState.k (state nd) = Some k0 →
  ∃ k1, NodeState.k (state (run cfg nd evs)) = Some k1 ∧ k0 ≤ k1.
Proof.
  intros GI Ef. revert nd k0 GI.
  induction evs as [|e evs IH]; intros nd k0 GI Hk.
  - exists k0. split; [done|lia].
  - destruct (round_step nd e GI Ef) as (k0' & k1 & Hk' & Hk1 & Hle).
    rewrite Hk in Hk'. injection Hk' as <-.
    destruct (IH _ k1 (step_inv cfg nd e GI) Hk1) as (k2 & Hk2 & Hle2).
    exists k2. split; [done|lia].
Qed.

(** X8.  The round counter of a non-faulty node never regresses and is
    never negative: over any sequence of events [k] stays a number, no
    smaller than it was. *)
Theorem round_never_regresses nd evs :
  reachable cfg nd → isFaulty = false →
  ∃ k0 k1,
    NodeState.k (state nd) = Some k0 ∧
    NodeState.k (state (run cfg nd evs)) = Some k1 ∧ 0 ≤ k0 ≤ k1.
Proof.
  intros Hr Ef.
  destruct (inv_round _ _ (reachable_inv2 nd Hr) Ef) as (k0 & Hk & Hk0).
  apply reachable_inv in Hr.
  destruct (round_run nd evs k0 Hr Ef Hk) as (k1 & Hk1 & Hle).
  exists k0, k1. by split_and!.
Qed.

(** X9.  Steps never overlap.  At most one [benOrStep] call is suspended,
    and while one is, no timer is armed; at most one timer is armed, it is
    the one [stepTimeout] holds and its delay is 100: the 10 ms delay of
    line 213 is never used. *)
Theorem one_step_at_a_time nd :
  reachable cfg nd →
  (running nd = [] ∨ ∃ c, running nd = [c] ∧ timers nd = ∅) ∧
  (timers nd = ∅ ∨ ∃ h, stepTimeout nd = Some h ∧ timers nd = {[h := 100]}).
Proof.
  intros Hr. pose proof (reachable_inv cfg nd Hr) as [_ _ G3 G4 _ _ _ _ _].
  pose proof (reachable_inv2 nd Hr) as [_ H2 _ _ _ _ _]. split.
  - destruct G4 as [?|([c ?] & ? & _)]; eauto.
  - destruct (stepTimeout nd) as [h|] eqn:Es.
    + destruct (timers nd !! h) as [d|] eqn:Eh.
      * right. exists h. split; [done|]. apply map_eq. intros j.
        destruct (decide (h = j)) as [<-|Hne].
        -- rewrite lookup_singleton_eq, Eh. f_equal. eauto.
        -- rewrite lookup_singleton_ne by done.
           destruct (timers nd !! j) eqn:Ej; [|done].
           specialize (G3 j (ltac:(eauto))). congruence.
      * left. apply map_eq. intros j. rewrite lookup_empty.
        destruct (timers nd !! j) eqn:Ej; [|done].
        specialize (G3 j (ltac:(eauto))). congruence.
    + left. apply map_eq. intros j. rewrite lookup_empty.
      destruct (timers nd !! j) eqn:Ej; [|done].
      specialize (G3 j (ltac:(eauto))). congruence.
Qed.

(** X10.  A suspended [benOrStep] call always finds [messages[state.k]]
    when it resumes, so none of its reads throws; and it only ever runs on
    a non-faulty node with [F <= N/2] that has not decided, so the
    [F > N/2] branch of lines 179-192 is never taken. *)
Theorem resumed_step_finds_its_bucket nd i c :
  reachable cfg nd → running nd !! i = Some c →
  isFaulty = false ∧ 2 * F ≤ N ∧
  NodeState.decided (state nd) = Some false ∧
  ∃ k0 b, current_bucket nd = Some (k0, b) ∧ 0 ≤ k0.
Proof.
  intros Hr Hi.
  destruct (suspended_call cfg nd i c (reachable_inv cfg nd Hr) Hi)
    as (_ & _ & _ & Hd & (k0 & b & Hb) & Ef & Eg & _).
  split_and!; try done; [by apply gt_half_false|].
  exists k0, b. split; [done|].
  destruct (inv_round _ _ (reachable_inv2 nd Hr) Ef) as (k1 & Hk1 & Hle).
  apply current_bucket_Some in Hb as [Hk _]. congruence.
Qed.

(** X11.  Self-delivery.  While a step waits for the R window, the node's
    own R message, carrying [state.x], is in the R list of the current
    round's bucket; while it waits for the P window, its own P message,
    carrying a bit, is in the P list as well. *)
Theorem own_messages_delivered nd i c :
  reachable cfg nd → running nd !! i = Some c → self_delivered cfg c nd.
Proof.
  intros Hr Hi.
  destruct (suspended_call cfg nd i c (reachable_inv cfg nd Hr) Hi)
    as (Hrun & _).
  by apply (inv_self _ _ (reachable_inv2 nd Hr)).
Qed.

(** X12.  A non-faulty node configured with [F > N/2] never posts
    anything and never enters the round logic: [sent] stays empty, no call
    is ever suspended and [x] stays the initial value. *)
Theorem above_half_is_mute nd :
  reachable cfg nd → isFaulty = false → N < 2 * F →
  sent nd = [] ∧ running nd = [] ∧
  NodeState.x (state nd) = Some initialValue.
Proof.
  intros Hr Ef Hg. apply gt_half_true in Hg.
  destruct (inv_forced _ _ (reachable_inv cfg nd Hr) Ef Hg) as (Hx & _ & _ & Hrun).
  split_and!; try done.
  by apply (inv_quiet _ _ (reachable_inv2 nd Hr)).
Qed.

(** X13.  On a non-faulty node with [F <= N/2], [x] can differ from 0 and
    1 only in round 0, where it is the initial value: from round 1 on the
    estimate is a bit. *)
Theorem estimate_is_bit_after_round_0 nd k0 :
  reachable cfg nd → isFaulty = false → 2 * F ≤ N →
  NodeState.k (state nd) = Some k0 → k0 ≠ 0 →
  NodeState.x (state nd) = Some V0 ∨ NodeState.x (state nd) = Some V1.
Proof.
  intros Hr Ef Hg Hk Hk0. apply gt_half_false in Hg.
  destruct (inv_round0 _ _ (reachable_inv2 nd Hr) Ef Hg) as [[Hk' _]|?]; [|done].
  congruence.
Qed.

(** After a decision no event posts, starts a step or arms a timer. *)
Lemma decided_quiet nd e :
  Inv cfg nd → NodeState.decided (state nd) = Some true →
  sent (step cfg nd e) = sent nd ∧
  step_entries (log (step cfg nd e)) = step_entries (log nd) ∧
  ∀ h, is_Some (timers (step cfg nd e) !! h) → is_Some (timers nd !! h).
Proof.
  intros [H1 H2 H3 H4 H5 H6 H7 H8 H9] Hd.
  assert (isFaulty = false) as Ef.
  { destruct isFaulty eqn:E; [|done].
    destruct (H1 eq_refl) as (_ & ? & _). congruence. }
  assert (gt_half F N = false) as Eg.
  { destruct (gt_half F N) eqn:E; [|done].
    destruct (H2 Ef eq_refl) as (_ & ? & _). congruence. }
  assert (running nd = []) as Hr.
  { destruct H4 as [?|(_ & _ & ? & _)]; [done|congruence]. }
  assert (∀ nd0, state nd0 = state nd → benOrStep cfg nd0 = nd0) as Hstep.
  { intros nd0 Hs. unfold benOrStep. rewrite Hs, Ef, Eg, Hd.
    rewrite le_half_gt_half, Eg. simpl.
    by destruct (NodeState.killed (state nd) || false). }
  unfold step, handle. destruct e as [|m|ready| | |h|i coin]; simpl.
  - done.
  - destruct (message_frame cfg m nd) as (_ & _ & _ & Et & _ & Es & El).
    destruct (message cfg m nd) as [nd' rs]. simpl in *.
    by rewrite Et, Es, El.
  - unfold start. rewrite Ef, Eg. simpl.
    destruct (NodeState.killed (state nd) || false); [done|].
    destruct (consensusRunning nd); [done|]. simpl.
    destruct ready; [|done]. by rewrite Hstep.
  - unfold stop. simpl. destruct (stepTimeout nd) as [h0|]; [|done]. simpl.
    split_and!; try done. intros h [d Hh].
    apply lookup_delete_Some in Hh as [_ Hh]. eauto.
  - unfold getState. by rewrite Eg.
  - destruct (timers nd !! h) eqn:Eh; [|done]. simpl. rewrite Hstep by done.
    simpl. split_and!; try done. intros h' [d Hh].
    apply lookup_delete_Some in Hh as [_ Hh]. eauto.
  - by rewrite Hr.
Qed.

(** X14.  A node that has decided is silent: whatever happens afterwards,
    it posts nothing more, no [benOrStep] call gets past the [decided]
    test, none is suspended, and no timer is armed that was not armed at
    the decision. *)
Theorem decided_node_is_silent nd evs :
  reachable cfg nd → NodeState.decided (state nd) = Some true →
  sent (run cfg nd evs) = sent nd ∧
  step_entries (log (run cfg nd evs)) = step_entries (log nd) ∧
  running (run cfg nd evs) = [] ∧
  ∀ h, is_Some (timers (run cfg nd evs) !! h) → is_Some (timers nd !! h).
Proof.
  intros Hr Hd. apply reachable_inv in Hr. revert nd Hr Hd.
  induction evs as [|e evs IH]; intros nd GI Hd.
  - simpl. split_and!; try done.
    destruct (inv_running _ _ GI) as [?|(_ & _ & ? & _)]; [done|congruence].
  - destruct (decided_quiet nd e GI Hd) as (Hs & Hl & Ht).
    destruct (decided_frame cfg nd e GI Hd) as [_ Hd'].
    destruct (IH _ (step_inv cfg nd e GI) Hd') as (Hs2 & Hl2 & Hr2 & Ht2).
    simpl. split_and!; try congruence. eauto.
Qed.

Lemma ensure_bucket_lookup key j b (ms : gmap Z Bucket) :
  ms !! j = Some b → ensure_bucket key ms !! j = Some b.
Proof.
  intros Hj. unfold ensure_bucket.
  destruct (ms !! key) eqn:E; [done|].
  rewrite lookup_insert_ne; [done|]. intros <-. congruence.
Qed.

Lemma benOrStep_bucket nd j b :
  messages nd !! j = Some b → messages (benOrStep cfg nd) !! j = Some b.
Proof.
  intros Hj. unfold benOrStep, suspend, broadcastMessage.
  repeat case_match; simpl; try done; by apply ensure_bucket_lookup.
Qed.

(** One event keeps every bucket that is not older than the round before
    the one the node is in afterwards, with all it held. *)
Lemma bucket_step nd e j b k1 :
  Inv cfg nd → messages nd !! j = Some b →
  NodeState.k (state (step cfg nd e)) = Some k1 → k1 - 1 ≤ j →
  ∃ b', messages (step cfg nd e) !! j = Some b' ∧
        (∀ y, y ∈ r b → y ∈ r b') ∧ (∀ y, y ∈ p b → y ∈ p b').
Proof.
  intros GI Hj. unfold step, handle.
  destruct e as [|m|ready| | |h|i coin]; simpl.
  - intros _ _. by exists b.
  - intros _ _. pose proof (message_bucket m nd j b Hj) as Hm.
    by destruct (message cfg m nd).
  - intros _ _. exists b. split; [|done]. unfold start.
    destruct (NodeState.killed (state nd) || isFaulty); [done|].
    destruct (consensusRunning nd); [done|]. simpl.
    set (nd2 := if gt_half F N && negb isFaulty then _ else _).
    assert (messages nd2 !! j = Some b) as Hj2.
    { subst nd2. by destruct (gt_half F N && negb isFaulty). }
    destruct ready; [by apply benOrStep_bucket|done].
  - intros _ _. exists b. split; [|done]. unfold stop. simpl.
    by destruct (stepTimeout nd).
  - intros _ _. exists b. split; [|done]. unfold getState.
    by destruct (gt_half F N && negb isFaulty).
  - intros _ _. exists b. split; [|done].
    destruct (timers nd !! h); [|done]. simpl. by apply benOrStep_bucket.
  - destruct (running nd !! i) as [c|] eqn:Ei; [|intros _ _; by exists b].
    simpl.
    destruct (suspended_call cfg nd i c GI Ei)
      as (Hr & -> & Ht & Hd & (k0 & b0 & Hb) & Ef & Eg & _).
    pose proof Hb as Hb'. apply current_bucket_Some in Hb' as [Hk Hm].
    assert (current_bucket (set_running (delete 0%nat (running nd)) nd)
            = Some (k0, b0)) as Hb0 by done.
    destruct c; simpl.
    + intros _ _. unfold after_send_R. rewrite Hb0. simpl.
      destruct (decide (k0 = j)) as [->|Hne].
      * rewrite lookup_insert_eq. simplify_eq. eexists. split; [done|].
        simpl. split; [|done]. intros y Hy. apply elem_of_app. by left.
      * rewrite lookup_insert_ne by done. by exists b.
    + intros _ _. exists b. split; [|done].
      unfold after_window_R, broadcastMessage. rewrite Hb0. simpl.
      by destruct (NodeState.killed (state nd) || isFaulty).
    + intros _ _. unfold after_send_P. rewrite Hb0. simpl.
      destruct (decide (k0 = j)) as [->|Hne].
      * rewrite lookup_insert_eq. simplify_eq. eexists. split; [done|].
        simpl. split; [done|]. intros y Hy. apply elem_of_app. by left.
      * rewrite lookup_insert_ne by done. by exists b.
    + unfold after_window_P. rewrite Hb0.
      destruct (N =? 1); [intros _ _; by exists b|].
      set (st1 := next_round cfg (resolve cfg _ _ coin _)).
      assert (NodeState.k st1 = Some (k0 + 1)) as Hk1.
      { subst st1. unfold next_round, resolve.
        rewrite le_half_gt_half, Eg. simpl.
        repeat case_match; simpl; by rewrite Hk. }
      destruct (consensusRunning _ && negb _); simpl; rewrite Hk1; simpl.
      all: intros [= <-] Hle; exists b; split; [|done].
      all: rewrite prune_lookup; case_decide; [lia|done].
Qed.

(** X15.  No message is dropped before its round is over: over any
    sequence of events on a non-faulty node, a bucket that is not older
    than the round before the one the node ends in is still in the store,
    with every message it held. *)
Theorem live_buckets_survive nd evs j b k1 :
  reachable cfg nd → isFaulty = false → messages nd !! j = Some b →
  NodeState.k (state (run cfg nd evs)) = Some k1 → k1 - 1 ≤ j →
  ∃ b', messages (run cfg nd evs) !! j = Some b' ∧
        (∀ y, y ∈ r b → y ∈ r b') ∧ (∀ y, y ∈ p b → y ∈ p b').
Proof.
  intros Hr Ef. apply reachable_inv in Hr. revert nd b Hr.
  induction evs as [|e evs IH]; intros nd b GI Hj Hk Hle.
  - by exists b.
  - simpl in *.
    destruct (inv_live _ _ (step_inv cfg nd e GI) Ef) as (_ & _ & [k' Hk']).
    destruct (round_run _ evs k' (step_inv cfg nd e GI) Ef Hk')
      as (k1' & Hk1' & Hle').
    rewrite Hk in Hk1'. injection Hk1' as <-.
    destruct (bucket_step nd e j b k' GI Hj Hk' ltac:(lia))
      as (b1 & Hj1 & Hr1 & Hp1).
    destruct (IH _ b1 (step_inv cfg nd e GI) Hj1 Hk Hle)
      as (b2 & Hj2 & Hr2 & Hp2).
    exists b2. split_and!; eauto.
Qed.

(** A resumed call that is not at the P window parks on the next
    [await] and leaves the state, the flags and the timers alone. *)
Lemma resume_parks nd c coin :
  Inv cfg nd → running nd !! 0%nat = Some c → c ≠ AwaitWindowP →
  state (step cfg nd (Resumes 0 coin)) = state nd ∧
  consensusRunning (step cfg nd (Resumes 0 coin)) = consensusRunning nd ∧
  nextTimer (step cfg nd (Resumes 0 coin)) = nextTimer nd ∧
  ∃ c', running (step cfg nd (Resumes 0 coin)) = [c'] ∧
        match c with
        | AwaitSendR => c' = AwaitWindowR
        | AwaitWindowR => ∃ vp, c' = AwaitSendP vp
        | AwaitSendP _ => c' = AwaitWindowP
        | AwaitWindowP => False
        end.
Proof.
  intros GI Hi Hc.
  destruct (suspended_call cfg nd 0 c GI Hi)
    as (Hr & _ & Ht & Hd & (k0 & b0 & Hb) & Ef & Eg & _).
  assert (current_bucket (set_running (delete 0%nat (running nd)) nd)
          = Some (k0, b0)) as Hb0 by done.
  unfold step, handle. rewrite Hi. simpl.
  destruct c; simpl; try done.
  - unfold after_send_R. rewrite Hb0. simpl. rewrite Hr. simpl.
    split_and!; try done. by eexists.
  - unfold after_window_R, broadcastMessage. rewrite Hb0. simpl.
    destruct (NodeState.killed (state nd) || isFaulty); simpl;
      rewrite Hr; simpl; (split_and!; try done); eexists; split; eauto.
  - unfold after_send_P. rewrite Hb0. simpl. rewrite Hr. simpl.
    split_and!; try done. by eexists.
Qed.

(** Between two resumptions nothing moves a suspended call, the round
    counter or the timer handles, and no timer gets armed. *)
Lemma parked_frame nd c e :
  Inv cfg nd → running nd = [c] → not_resumption e →
  running (step cfg nd e) = [c] ∧
  NodeState.k (state (step cfg nd e)) = NodeState.k (state nd) ∧
  nextTimer (step cfg nd e) = nextTimer nd.
Proof.
  intros GI Hr He.
  destruct (suspended_call cfg nd 0 c GI ltac:(by rewrite Hr))
    as (_ & _ & Ht & _ & _ & Ef & Eg & Hck).
  unfold step, handle. destruct e as [|m|ready| | |h|i coin]; simpl; try done.
  - unfold message. by destruct (NodeState.killed (state nd) || isFaulty).
  - unfold start.
    destruct (NodeState.killed (state nd) || isFaulty) eqn:Ekf; [done|].
    apply orb_false_iff in Ekf as [Ek _].
    destruct (consensusRunning nd) eqn:Ec; [done|].
    specialize (Hck eq_refl). congruence.
  - unfold stop. simpl. by destruct (stepTimeout nd).
  - unfold getState. by rewrite Eg.
  - by rewrite Ht, lookup_empty.
Qed.

Lemma parked_run nd c es :
  Inv cfg nd → running nd = [c] → Forall not_resumption es →
  Inv cfg (run cfg nd es) ∧
  running (run cfg nd es) = [c] ∧
  NodeState.k (state (run cfg nd es)) = NodeState.k (state nd) ∧
  nextTimer (run cfg nd es) = nextTimer nd.
Proof.
  intros GI Hr Hes. revert nd GI Hr.
  induction Hes as [|e es He _ IH]; intros nd GI Hr; [done|].
  destruct (parked_frame nd c e GI Hr He) as (Hr1 & Hk1 & Hn1).
  destruct (IH _ (step_inv cfg nd e GI) Hr1) as (GI2 & Hr2 & Hk2 & Hn2).
  simpl. split_and!; try done; congruence.
Qed.

(** One resumption of a call that is not at the P window, after any
    events that are not resumptions. *)
Lemma parked_advance nd c es coin :
  Inv cfg nd → running nd = [c] → c ≠ AwaitWindowP →
  Forall not_resumption es →
  Inv cfg (run cfg nd (es ++ [Resumes 0 coin])) ∧
  NodeState.k (state (run cfg nd (es ++ [Resumes 0 coin])))
  = NodeState.k (state nd) ∧
  nextTimer (run cfg nd (es ++ [Resumes 0 coin])) = nextTimer nd ∧
  ∃ c', running (run cfg nd (es ++ [Resumes 0 coin])) = [c'] ∧
        match c with
        | AwaitSendR => c' = AwaitWindowR
        | AwaitWindowR => ∃ vp, c' = AwaitSendP vp
        | AwaitSendP _ => c' = AwaitWindowP
        | AwaitWindowP => False
        end.
Proof.
  intros GI Hr Hc Hes.
  destruct (parked_run nd c es GI Hr Hes) as (GI1 & Hr1 & Hk1 & Hn1).
  rewrite run_snoc.
  destruct (resume_parks (run cfg nd es) c coin GI1)
    as (Es & _ & En & c' & Hr2 & Hc'); [by rewrite Hr1|done|].
  split_and!; [by apply step_inv|congruence|congruence|by exists c'].
Qed.

(** X16.  A round that has been entered runs to its end.  From the first
    [await] of a step on a network of more than one node, the four
    resumptions take the call through both windows without a failure,
    whatever arrives between them - posts, reads, [/start], a timer, even
    [/stop]: the round counter goes up by one, no call is left suspended,
    and the next step is armed, with a delay of 100, exactly when at the
    end the consensus is still marked as running and the node is not
    killed. *)
Theorem round_runs_to_completion nd es1 es2 es3 es4 c1 c2 c3 c4 :
  reachable cfg nd → running nd !! 0%nat = Some AwaitSendR → N ≠ 1 →
  Forall not_resumption es1 → Forall not_resumption es2 →
  Forall not_resumption es3 → Forall not_resumption es4 →
  ∀ nd',
    nd' = run cfg nd ((es1 ++ [Resumes 0 c1]) ++ (es2 ++ [Resumes 0 c2]) ++
                      (es3 ++ [Resumes 0 c3]) ++ (es4 ++ [Resumes 0 c4])) →
    ∃ k0,
      NodeState.k (state nd) = Some k0 ∧
      NodeState.k (state nd') = Some (k0 + 1) ∧
      running nd' = [] ∧
      timers nd' =
        if consensusRunning nd' && negb (NodeState.killed (state nd'))
        then {[nextTimer nd := 100]} else ∅.
Proof.
  intros Hr Hi HN H1 H2 H3 H4 nd' ->. apply reachable_inv in Hr as GI0.
  destruct (suspended_call cfg nd 0 _ GI0 Hi) as (Hr0 & _).
  destruct (parked_advance nd _ es1 c1 GI0 Hr0 ltac:(done) H1)
    as (GI1 & Hk1 & Hn1 & c' & Hr1 & ->).
  rewrite (run_app cfg nd (es1 ++ [Resumes 0 c1])).
  set (nd1 := run cfg nd (es1 ++ [Resumes 0 c1])) in *.
  destruct (parked_advance nd1 _ es2 c2 GI1 Hr1 ltac:(done) H2)
    as (GI2 & Hk2 & Hn2 & c' & Hr2 & vp & ->).
  rewrite (run_app cfg nd1 (es2 ++ [Resumes 0 c2])).
  set (nd2 := run cfg nd1 (es2 ++ [Resumes 0 c2])) in *.
  destruct (parked_advance nd2 _ es3 c3 GI2 Hr2 ltac:(done) H3)
    as (GI3 & Hk3 & Hn3 & c' & Hr3 & ->).
  rewrite (run_app cfg nd2 (es3 ++ [Resumes 0 c3])).
  set (nd3 := run cfg nd2 (es3 ++ [Resumes 0 c3])) in *.
  destruct (parked_run nd3 _ es4 GI3 Hr3 H4) as (GI4 & Hr4 & Hk4 & Hn4).
  rewrite run_snoc.
  set (nd4 := run cfg nd3 es4) in *.
  assert (running nd4 !! 0%nat = Some AwaitWindowP) as Hi4 by by rewrite Hr4.
  destruct (suspended_call cfg nd4 0 _ GI4 Hi4)
    as (_ & _ & Ht & Hd & (k0 & b0 & Hb) & Ef & Eg & _).
  pose proof Hb as Hb'. apply current_bucket_Some in Hb' as [Hk Hm].
  exists k0. split; [congruence|].
  unfold step, handle. rewrite Hi4. simpl.
  unfold after_window_P.
  assert (current_bucket (set_running (delete 0%nat (running nd4)) nd4)
          = Some (k0, b0)) as -> by done.
  destruct (Z.eqb_spec N 1) as [?|_]; [done|].
  set (st1 := next_round cfg (resolve cfg _ _ c4 _)).
  assert (NodeState.k st1 = Some (k0 + 1) ∧
          NodeState.killed st1 = NodeState.killed (state nd4)) as [Hk' Hkl].
  { subst st1. unfold next_round, resolve.
    rewrite le_half_gt_half, Eg. simpl.
    repeat case_match; simpl; by rewrite Hk. }
  assert (nextTimer nd4 = nextTimer nd) as En by congruence.
  simpl. rewrite Hkl, Eg.
  destruct (consensusRunning nd4 && negb (NodeState.killed (state nd4)))
    eqn:E.
  all: simpl; rewrite ?Hkl, ?E, Hr4, Ht, ?En; simpl; by split_and!.
Qed.

(** X17.  On a non-faulty node [x], [decided] and [k] are never [null]:
    the [null] cases of [!state.k] and of [state.x !== null ? state.x : 0]
    never apply. *)
Theorem live_fields_never_null nd :
  reachable cfg nd → isFaulty = false →
  is_Some (NodeState.x (state nd)) ∧
  is_Some (NodeState.decided (state nd)) ∧
  is_Some (NodeState.k (state nd)).
Proof. intros Hr Ef. by apply (inv_live _ _ (reachable_inv cfg nd Hr)). Qed.

End Extra.

(** ** The further properties on concrete networks *)

Lemma at_window_R_reachable : reachable three_one at_window_R.
Proof. by eexists. Qed.

Lemma at_window_P_reachable : reachable three_one at_window_P.
Proof. apply reachable_run, at_window_R_reachable. Qed.

Lemma three_decided_reachable : reachable three_one three_decided.
Proof. apply reachable_run, at_window_P_reachable. Qed.

Lemma posts_well_formed_witness :
  own_post three_one (1, Message.mk R 0 0 (Some V1)).
Proof.
  apply (posts_well_formed three_one at_window_P).
  - apply at_window_P_reachable.
  - apply list_elem_of_In. vm_compute. by left.
Defined.

Lemma message_recorded_witness :
  r (bucket_of (message three_one (from_peer R 1 0 V1) (init three_one)).1 0)
  = [from_peer R 1 0 V1].
Proof.
  destruct (message_recorded three_one (from_peer R 1 0 V1) (init three_one))
    as (_ & _ & Hr & _).
  - reflexivity.
  - reflexivity.
  - exact Hr.
Defined.

Lemma stopped_node_rejects_witness :
  handle three_one (run three_one (stop at_window_P).1 [Resumes 0 true])
         (PostMessage (from_peer P 2 0 V1)) =
  (run three_one (stop at_window_P).1 [Resumes 0 true],
   Some (Send 500 "Node is faulty or killed")).
Proof.
  destruct (stopped_node_rejects three_one at_window_P [Resumes 0 true]
              (from_peer P 2 0 V1) true) as [H _].
  - apply at_window_P_reachable.
  - exact H.
Defined.

Lemma faulty_node_states_witness :
  faulty_poked = init three_faulty ∨ faulty_poked = (stop (init three_faulty)).1.
Proof.
  apply (faulty_node_states three_faulty faulty_poked).
  - by eexists.
  - reflexivity.
Defined.

Lemma round_never_regresses_witness :
  ∃ k0 k1,
    NodeState.k (state at_window_R) = Some k0 ∧
    NodeState.k (state (run three_one at_window_R
                            [Resumes 0 true; Resumes 0 true; Resumes 0 true;
                             TimerFires 0]))
    = Some k1 ∧ 0 ≤ k0 ≤ k1.
Proof.
  apply (round_never_regresses three_one at_window_R).
  - apply at_window_R_reachable.
  - reflexivity.
Defined.

Lemma one_step_at_a_time_witness :
  (running three_decided = [] ∨
   ∃ c, running three_decided = [c] ∧ timers three_decided = ∅) ∧
  (timers three_decided = ∅ ∨
   ∃ h, stepTimeout three_decided = Some h ∧
        timers three_decided = {[h := 100]}).
Proof.
  apply (one_step_at_a_time three_one three_decided).
  apply three_decided_reachable.
Defined.

Lemma resumed_step_finds_its_bucket_witness :
  Config.isFaulty three_one = false ∧ 2 * Config.F three_one ≤ Config.N three_one ∧
  NodeState.decided (state at_window_P) = Some false ∧
  ∃ k0 b, current_bucket at_window_P = Some (k0, b) ∧ 0 ≤ k0.
Proof.
  apply (resumed_step_finds_its_bucket three_one at_window_P 0 AwaitWindowP).
  - apply at_window_P_reachable.
  - by vm_compute.
Defined.

Lemma own_messages_delivered_witness :
  self_delivered three_one AwaitWindowP at_window_P.
Proof.
  apply (own_messages_delivered three_one at_window_P 0).
  - apply at_window_P_reachable.
  - by vm_compute.
Defined.

Lemma above_half_is_mute_witness :
  sent above_half_running = [] ∧ running above_half_running = [] ∧
  NodeState.x (state above_half_running) = Some V1.
Proof.
  apply (above_half_is_mute three_two above_half_running).
  - by eexists.
  - reflexivity.
  - simpl. lia.
Defined.

Lemma estimate_is_bit_after_round_0_witness :
  NodeState.x (state three_decided) = Some V0 ∨
  NodeState.x (state three_decided) = Some V1.
Proof.
  apply (estimate_is_bit_after_round_0 three_one three_decided 1).
  - apply three_decided_reachable.
  - reflexivity.
  - simpl. lia.
  - by vm_compute.
  - lia.
Defined.

Lemma decided_node_is_silent_witness :
  sent (run three_one three_decided
            [TimerFires 0; PostMessage (from_peer R 1 1 V1); GetStart true])
  = sent three_decided ∧
  running (run three_one three_decided
               [TimerFires 0; PostMessage (from_peer R 1 1 V1); GetStart true])
  = [].
Proof.
  destruct (decided_node_is_silent three_one three_decided
              [TimerFires 0; PostMessage (from_peer R 1 1 V1); GetStart true])
    as (Hs & _ & Hr & _).
  - apply three_decided_reachable.
  - by vm_compute.
  - by split.
Defined.

Lemma live_buckets_survive_witness :
  ∃ b', messages
          (run three_one at_window_R
               [Resumes 0 true; PostMessage (from_peer P 1 0 V1);
                Resumes 0 true; PostMessage (from_peer R 1 2 V1);
                Resumes 0 true]) !! 0 = Some b' ∧
        (∀ y, y ∈ r (bucket_of at_window_R 0) → y ∈ r b') ∧
        (∀ y, y ∈ p (bucket_of at_window_R 0) → y ∈ p b').
Proof.
  apply (live_buckets_survive three_one at_window_R
           [Resumes 0 true; PostMessage (from_peer P 1 0 V1); Resumes 0 true;
            PostMessage (from_peer R 1 2 V1); Resumes 0 true]
           0 (bucket_of at_window_R 0) 1).
  - apply at_window_R_reachable.
  - reflexivity.
  - by vm_compute.
  - by vm_compute.
  - lia.
Defined.

Lemma round_runs_to_completion_witness :
  ∃ k0,
    NodeState.k (state at_send_R) = Some k0 ∧
    NodeState.k
      (state (run three_one at_send_R
                  (([PostMessage (from_peer R 1 0 V1)] ++ [Resumes 0 true]) ++
                   ([GetGetState] ++ [Resumes 0 false]) ++
                   ([GetStop] ++ [Resumes 0 true]) ++
                   ([GetStart true; TimerFires 0] ++ [Resumes 0 false]))))
    = Some (k0 + 1) ∧
    running
      (run three_one at_send_R
           (([PostMessage (from_peer R 1 0 V1)] ++ [Resumes 0 true]) ++
            ([GetGetState] ++ [Resumes 0 false]) ++
            ([GetStop] ++ [Resumes 0 true]) ++
            ([GetStart true; TimerFires 0] ++ [Resumes 0 false]))) = [] ∧
    timers
      (run three_one at_send_R
           (([PostMessage (from_peer R 1 0 V1)] ++ [Resumes 0 true]) ++
            ([GetGetState] ++ [Resumes 0 false]) ++
            ([GetStop] ++ [Resumes 0 true]) ++
            ([GetStart true; TimerFires 0] ++ [Resumes 0 false]))) = ∅.
Proof.
  destruct (round_runs_to_completion three_one at_send_R
              [PostMessage (from_peer R 1 0 V1)] [GetGetState] [GetStop]
              [GetStart true; TimerFires 0] true false true false)
    with (nd' := run three_one at_send_R
           (([PostMessage (from_peer R 1 0 V1)] ++ [Resumes 0 true]) ++
            ([GetGetState] ++ [Resumes 0 false]) ++
            ([GetStop] ++ [Resumes 0 true]) ++
            ([GetStart true; TimerFires 0] ++ [Resumes 0 false])))
    as (k0 & Hk & Hk' & Hr & Ht).
  - by eexists.
  - by vm_compute.
  - simpl. lia.
  - repeat constructor.
  - repeat constructor.
  - repeat constructor.
  - repeat constructor.
  - reflexivity.
  - exists k0. by split_and!.
Defined.

Lemma live_fields_never_null_witness :
  is_Some (NodeState.x (state at_window_P)) ∧
  is_Some (NodeState.decided (state at_window_P)) ∧
  is_Some (NodeState.k (state at_window_P)).
Proof.
  apply (live_fields_never_null three_one at_window_P).
  - apply at_window_P_reachable.
  - reflexivity.
Defined.
